(** * The Emberstone Legacy: combat, stats and inventory of [game.py]

    A shallow embedding of the combat core of [game.py]: the classes [Item],
    [Enemy] and [Player] and the function [start_combat].  Python integers
    are [Z], Python floats are binary64 primitive floats.  Python strings are
    [string]: a character of the model is a code point below 256, the code
    point of [c] being [nat_of_ascii c] (so U+00A0 is [ascii_of_nat 160]);
    text with other characters is not in the model.  The module-level
    [player] and the [enemy] of the running encounter are two cells of the
    [World]; the console and the [random] module are the rest of it. *)

From Stdlib Require Import ZArith Bool List String Ascii DecimalString Floats Lia.
Import ListNotations.

Set Warnings "-inexact-float".
Open Scope string_scope.
Open Scope Z_scope.

(** ** Python values and built-ins *)

(** The members of an effect tuple: [('heal', 25)], [('boost', 'strength', 2)]. *)
Inductive PyVal :=
| VStr (s : string)
| VInt (n : Z).

(** The exceptions the modelled code can raise. *)
Inductive PyExn := TypeError | ValueError | IndexError | OverflowError | EOFError.

(** [a == b] on two strings. *)
Infix "==" := String.eqb (at level 70, no associativity).

Definition NL : string := String "010" EmptyString.

(** [str(n)] and [f"{n}"] for an [int]: its decimal digits, whatever their
    number (the bound that the interpreter can be set to put on the digits
    of a conversion is not part of the model). *)
Definition str (n : Z) : string := NilZero.string_of_int (Z.to_int n).

(** [str(v)] for a member of a tuple. *)
Definition str_val (v : PyVal) : string :=
  match v with VStr s => s | VInt n => str n end.

(** [v == s] for a string literal [s]. *)
Definition val_eq_str (v : PyVal) (s : string) : bool :=
  match v with VStr t => String.eqb t s | VInt _ => false end.

(** [c.lower()] on a character below 256: the capitals A..Z (65..90) and
    the capitals of U+00C0..U+00DE (192..222) other than the multiplication
    sign U+00D7 (215) have their small letter 32 places further; no other
    character below 256 is changed. *)
Definition lower_char (c : ascii) : ascii :=
  let n := nat_of_ascii c in
  if ((Nat.leb 65 n && Nat.leb n 90)
      || (Nat.leb 192 n && Nat.leb n 222 && negb (Nat.eqb n 215)))%bool
  then ascii_of_nat (n + 32) else c.

(** [s.lower()]. *)
Fixpoint lower (s : string) : string :=
  match s with
  | EmptyString => EmptyString
  | String c t => String (lower_char c) (lower t)
  end.

(** [c.isspace()] on a character below 256, the white space that
    [str.strip] removes: tab, line feed, vertical tab, form feed, carriage
    return (9..13), the four separators 28..31, the space (32), the next
    line U+0085 (133) and the no-break space U+00A0 (160). *)
Definition isspace (c : ascii) : bool :=
  let n := nat_of_ascii c in
  ((Nat.leb 9 n && Nat.leb n 13) || (Nat.leb 28 n && Nat.leb n 32)
   || Nat.eqb n 133 || Nat.eqb n 160)%bool.

Fixpoint lstrip (s : string) : string :=
  match s with
  | EmptyString => EmptyString
  | String c t => if isspace c then lstrip t else s
  end.

Fixpoint rstrip (s : string) : string :=
  match s with
  | EmptyString => EmptyString
  | String c t =>
      match rstrip t with
      | EmptyString => if isspace c then EmptyString else String c EmptyString
      | t' => String c t'
      end
  end.

(** [s.strip()]. *)
Definition strip (s : string) : string := rstrip (lstrip s).

(** [s.split(' ', 1)]: one piece when [s] has no space, else the text before
    the first space and the text after it. *)
Fixpoint split_space_once (s : string) : list string :=
  match s with
  | EmptyString => [EmptyString]
  | String c t =>
      if Ascii.eqb c " " then [EmptyString; t]
      else match split_space_once t with
           | [a] => [String c a]
           | a :: rest => String c a :: rest
           | [] => []
           end
  end.

(** [float(n)] as Python converts an [int] operand of a float operation:
    rounded to the nearest binary64, ties to even; [None] is the
    [OverflowError] of an integer too large for a float. *)
Definition py_float_of_int (n : Z) : option float :=
  let f := SF2Prim (binary_normalize prec emax n 0 false) in
  if is_infinity f then None else Some f.

(** [int(f)]: truncation toward zero; [ValueError] on a NaN and
    [OverflowError] on an infinity. *)
Definition py_int_of_float (f : float) : PyExn + Z :=
  match Prim2SF f with
  | S754_zero _ => inr 0
  | S754_finite s m e =>
      let a := if 0 <=? e then Z.shiftl (Zpos m) e else Z.shiftr (Zpos m) (- e) in
      inr (if s then - a else a)
  | S754_infinity _ => inl OverflowError
  | S754_nan => inl ValueError
  end.

(** ** Data model *)

Module Item.
(** [id] is the identity of the Python object: [Item] defines no [__eq__],
    so [list.remove] and [in] compare items by identity. *)
Record t := mk {
  id : nat;
  name : string;
  description : string;
  item_type : string;
  effect : option (list PyVal)
}.
End Item.

Module Enemy.
Record t := mk {
  name : string;
  max_hp : Z;
  hp : Z;
  strength : Z;
  agility : Z;
  magic : Z;
  description : string
}.

Definition set_hp (self : t) (v : Z) : t :=
  mk (name self) (max_hp self) v (strength self) (agility self) (magic self)
     (description self).
End Enemy.

(** The [stats] dictionary always has exactly the keys ['strength'],
    ['agility'] and ['magic']. *)
Module Stats.
Record t := mk { strength : Z; agility : Z; magic : Z }.
End Stats.

Module Player.
Record t := mk {
  name : string;
  char_class : string;
  stats : Stats.t;
  max_hp : Z;
  hp : Z;
  max_mp : Z;
  mp : Z;
  inventory : list Item.t;
  is_defending : bool
}.

Definition set_char_class (self : t) (v : string) : t :=
  mk (name self) v (stats self) (max_hp self) (hp self) (max_mp self) (mp self)
     (inventory self) (is_defending self).
Definition set_stats (self : t) (v : Stats.t) : t :=
  mk (name self) (char_class self) v (max_hp self) (hp self) (max_mp self)
     (mp self) (inventory self) (is_defending self).
Definition set_max_hp (self : t) (v : Z) : t :=
  mk (name self) (char_class self) (stats self) v (hp self) (max_mp self)
     (mp self) (inventory self) (is_defending self).
Definition set_hp (self : t) (v : Z) : t :=
  mk (name self) (char_class self) (stats self) (max_hp self) v (max_mp self)
     (mp self) (inventory self) (is_defending self).
Definition set_max_mp (self : t) (v : Z) : t :=
  mk (name self) (char_class self) (stats self) (max_hp self) (hp self) v
     (mp self) (inventory self) (is_defending self).
Definition set_mp (self : t) (v : Z) : t :=
  mk (name self) (char_class self) (stats self) (max_hp self) (hp self)
     (max_mp self) v (inventory self) (is_defending self).
Definition set_inventory (self : t) (v : list Item.t) : t :=
  mk (name self) (char_class self) (stats self) (max_hp self) (hp self)
     (max_mp self) (mp self) v (is_defending self).
Definition set_is_defending (self : t) (v : bool) : t :=
  mk (name self) (char_class self) (stats self) (max_hp self) (hp self)
     (max_mp self) (mp self) (inventory self) v.
End Player.

(** ** The world: the two live objects, the console and the random source *)

(** What the program writes: a [print] or [type_text] line, or the prompt of
    an [input] call. *)
Inductive Out :=
| Line (s : string)
| Prompt (s : string).

Record World := mkWorld {
  player : Player.t;          (* the global [player] *)
  enemy : Enemy.t;            (* the [enemy] of the encounter *)
  next_id : nat;              (* identity of the next [Item] object *)
  rand_ints : list Z;         (* the coming results of [random.randint] *)
  rand_floats : list float;   (* the coming results of [random.random] *)
  stdin : list string;        (* the lines the user will type, after which
                                 the input ends *)
  stdout : list Out           (* everything written so far, oldest first *)
}.

Definition with_player (w : World) (p : Player.t) : World :=
  mkWorld p (enemy w) (next_id w) (rand_ints w) (rand_floats w) (stdin w) (stdout w).
Definition with_enemy (w : World) (e : Enemy.t) : World :=
  mkWorld (player w) e (next_id w) (rand_ints w) (rand_floats w) (stdin w) (stdout w).
Definition with_next_id (w : World) (n : nat) : World :=
  mkWorld (player w) (enemy w) n (rand_ints w) (rand_floats w) (stdin w) (stdout w).
Definition with_rand_ints (w : World) (l : list Z) : World :=
  mkWorld (player w) (enemy w) (next_id w) l (rand_floats w) (stdin w) (stdout w).
Definition with_rand_floats (w : World) (l : list float) : World :=
  mkWorld (player w) (enemy w) (next_id w) (rand_ints w) l (stdin w) (stdout w).
Definition with_stdin (w : World) (l : list string) : World :=
  mkWorld (player w) (enemy w) (next_id w) (rand_ints w) (rand_floats w) l (stdout w).
Definition with_stdout (w : World) (l : list Out) : World :=
  mkWorld (player w) (enemy w) (next_id w) (rand_ints w) (rand_floats w) (stdin w) l.

(** The result of running a piece of the program from a world. *)
Inductive Res (A : Type) :=
| Ok (a : A) (w : World)        (* it returns [a] *)
| Raise (e : PyExn) (w : World) (* an exception propagates *)
| Stuck (w : World)             (* the supplied draws do not go on: none is
                                   left, or the next one is outside the
                                   range the call asks for *)
| OutOfFuel.                    (* the loop bound of the model was reached *)
Arguments Ok {A} a w.
Arguments Raise {A} e w.
Arguments Stuck {A} w.
Arguments OutOfFuel {A}.

Definition M (A : Type) : Type := World -> Res A.

Definition ret {A} (a : A) : M A := fun w => Ok a w.

Definition bind {A B} (m : M A) (k : A -> M B) : M B :=
  fun w =>
    match m w with
    | Ok a w' => k a w'
    | Raise e w' => Raise e w'
    | Stuck w' => Stuck w'
    | OutOfFuel => OutOfFuel
    end.

Declare Scope py_scope.
Delimit Scope py_scope with py.
Notation "x <- c ;; k" := (bind c (fun x => k))
  (at level 100, c at next level, right associativity) : py_scope.
Notation "c ;; k" := (bind c (fun _ => k))
  (at level 100, right associativity) : py_scope.
Open Scope py_scope.

Definition raise {A} (e : PyExn) : M A := fun w => Raise e w.

(** [try: body  except ValueError: handler]. *)
Definition try_except_ValueError {A} (body handler : M A) : M A :=
  fun w =>
    match body w with
    | Raise ValueError w' => handler w'
    | r => r
    end.

Definition get_player : M Player.t := fun w => Ok (player w) w.
Definition set_player (p : Player.t) : M unit := fun w => Ok tt (with_player w p).
Definition get_enemy : M Enemy.t := fun w => Ok (enemy w) w.
Definition set_enemy (e : Enemy.t) : M unit := fun w => Ok tt (with_enemy w e).

(** [print(s)]. *)
Definition print (s : string) : M unit :=
  fun w => Ok tt (with_stdout w (stdout w ++ [Line s])).

(** [type_text(s)] writes the same line as [print(s)], slowly; the delays of
    [time.sleep] are not part of the model. *)
Definition type_text (s : string) : M unit := print s.

(** [input(prompt)]: the prompt is written and the next line is read;
    at the end of the input the prompt is written and [EOFError] is
    raised. *)
Definition input (prompt : string) : M string :=
  fun w =>
    match stdin w with
    | [] => Raise EOFError (with_stdout w (stdout w ++ [Prompt prompt]))
    | l :: rest => Ok l (with_stdout (with_stdin w rest) (stdout w ++ [Prompt prompt]))
    end.

(** [random.randint(a, b)]: the next supplied draw, which lies in [a..b]. *)
Definition randint (a b : Z) : M Z :=
  fun w =>
    match rand_ints w with
    | [] => Stuck w
    | r :: rest =>
        if ((a <=? r) && (r <=? b))%bool then Ok r (with_rand_ints w rest) else Stuck w
    end.

(** [random.random()]: the next supplied draw, which lies in [0, 1). *)
Definition random : M float :=
  fun w =>
    match rand_floats w with
    | [] => Stuck w
    | r :: rest =>
        if ((0 <=? r)%float && (r <? 1)%float)%bool
        then Ok r (with_rand_floats w rest) else Stuck w
    end.

(** An [int] operand of a float multiplication. *)
Definition to_float (n : Z) : M float :=
  match py_float_of_int n with
  | Some f => ret f
  | None => raise OverflowError
  end.

(** [int(f)]. *)
Definition int_of_float (f : float) : M Z :=
  match py_int_of_float f with
  | inr n => ret n
  | inl e => raise e
  end.

(** [Item(name, description, item_type, effect)]: a new object. *)
Definition Item_new (name description item_type : string)
    (effect : option (list PyVal)) : M Item.t :=
  fun w =>
    Ok (Item.mk (next_id w) name description item_type effect)
       (with_next_id w (S (next_id w))).

(** ** class Enemy *)

(** [Enemy(name, hp, strength, agility, magic, description)]. *)
Definition Enemy_new (name : string) (hp strength agility magic : Z)
    (description : string) : Enemy.t :=
  Enemy.mk name hp hp strength agility magic description.

Definition Enemy_is_alive (self : Enemy.t) : bool := 0 <? Enemy.hp self.

(** [Enemy.take_damage(self, damage)], [self] being the world's enemy. *)
Definition Enemy_take_damage (damage : Z) : M unit :=
  self <- get_enemy ;;
  let hp := Enemy.hp self - damage in
  let hp := if hp <? 0 then 0 else hp in
  set_enemy (Enemy.set_hp self hp) ;;
  type_text (Enemy.name self ++ " takes " ++ str damage ++ " damage! ["
             ++ str hp ++ "/" ++ str (Enemy.max_hp self) ++ " HP]").

(** ** class Player *)

(** [Player(name)]. *)
Definition Player_new (name : string) : Player.t :=
  Player.mk name "" (Stats.mk 0 0 0) 100 100 50 50 [] false.

Definition modify_player (f : Player.t -> Player.t) : M unit :=
  self <- get_player ;; set_player (f self).

(** [self.inventory.append(item)]. *)
Definition inventory_append (item : Item.t) : M unit :=
  modify_player (fun self => Player.set_inventory self (Player.inventory self ++ [item])).

Definition set_vitals (stats : Stats.t) (max_hp max_mp : Z) : M unit :=
  modify_player (fun self => Player.set_stats self stats) ;;
  modify_player (fun self => Player.set_max_hp self max_hp) ;;
  modify_player (fun self => Player.set_hp self max_hp) ;;
  modify_player (fun self => Player.set_max_mp self max_mp) ;;
  modify_player (fun self => Player.set_mp self max_mp).

(** [Player.setup_class(self, char_class)]. *)
Definition Player_setup_class (char_class : string) : M unit :=
  modify_player (fun self => Player.set_char_class self char_class) ;;
  (if char_class == "Guardian" then
     set_vitals (Stats.mk 15 8 5) 120 30 ;;
     item <- Item_new "Soldier's Sword" "A reliable steel sword." "weapon"
               (Some [VStr "boost"; VStr "strength"; VInt 2]) ;;
     inventory_append item
   else if char_class == "Mage" then
     set_vitals (Stats.mk 6 10 18) 80 80 ;;
     item <- Item_new "Apprentice Staff" "A smooth wooden staff, warm to the touch."
               "weapon" (Some [VStr "boost"; VStr "magic"; VInt 2]) ;;
     inventory_append item
   else if char_class == "Shadow" then
     set_vitals (Stats.mk 10 16 10) 90 50 ;;
     item <- Item_new "Twin Daggers" "A pair of sharp, quiet daggers." "weapon"
               (Some [VStr "boost"; VStr "agility"; VInt 2]) ;;
     inventory_append item
   else ret tt) ;;
  item <- Item_new "Health Potion" "Restores 25 HP." "potion"
            (Some [VStr "heal"; VInt 25]) ;;
  inventory_append item ;;
  item <- Item_new "Health Potion" "Restores 25 HP." "potion"
            (Some [VStr "heal"; VInt 25]) ;;
  inventory_append item.

Definition Player_is_alive (self : Player.t) : bool := 0 <? Player.hp self.

(** [Player.take_damage(self, damage)], [self] being the world's player. *)
Definition Player_take_damage (damage : Z) : M unit :=
  self <- get_player ;;
  let hp := Player.hp self - damage in
  let hp := if hp <? 0 then 0 else hp in
  set_player (Player.set_hp self hp) ;;
  type_text (Player.name self ++ " takes " ++ str damage ++ " damage! ["
             ++ str hp ++ "/" ++ str (Player.max_hp self) ++ " HP]").

(** [item.effect[i]]: [TypeError] when the effect is [None], [IndexError]
    past the end of the tuple. *)
Definition effect_at (item : Item.t) (i : nat) : M PyVal :=
  match Item.effect item with
  | None => raise TypeError
  | Some t => match nth_error t i with
              | Some v => ret v
              | None => raise IndexError
              end
  end.

(** The right operand of [self.hp += amount]: an [int], or [TypeError]. *)
Definition int_operand (v : PyVal) : M Z :=
  match v with
  | VInt n => ret n
  | VStr _ => raise TypeError
  end.

(** [l.remove(item)] on a list of items: the list without the first
    occurrence of the object, [None] when it does not occur. *)
Fixpoint remove_first (i : nat) (l : list Item.t) : option (list Item.t) :=
  match l with
  | [] => None
  | x :: rest =>
      if Nat.eqb (Item.id x) i then Some rest
      else option_map (cons x) (remove_first i rest)
  end.

(** [self.inventory.remove(item)]; [ValueError] when the item is not there. *)
Definition inventory_remove (item : Item.t) : M unit :=
  self <- get_player ;;
  match remove_first (Item.id item) (Player.inventory self) with
  | Some l => set_player (Player.set_inventory self l)
  | None => raise ValueError
  end.

(** [Player.use_item(self, item)]. *)
Definition Player_use_item (item : Item.t) : M unit :=
  if negb (Item.item_type item == "potion") then
    print ("You can't 'use' " ++ Item.name item ++ " right now.")
  else
    kind <- effect_at item 0 ;;
    if val_eq_str kind "heal" then
      self <- get_player ;;
      if Player.hp self =? Player.max_hp self then
        print "Your health is already full!"
      else
        heal_amount <- effect_at item 1 ;;
        n <- int_operand heal_amount ;;
        let hp := Player.hp self + n in
        let hp := if Player.max_hp self <? hp then Player.max_hp self else hp in
        set_player (Player.set_hp self hp) ;;
        print (Player.name self ++ " uses a " ++ Item.name item ++ " and restores "
               ++ str_val heal_amount ++ " HP.") ;;
        print ("You now have " ++ str hp ++ "/" ++ str (Player.max_hp self) ++ " HP.") ;;
        inventory_remove item
    else if val_eq_str kind "mana" then
      self <- get_player ;;
      if Player.mp self =? Player.max_mp self then
        print "Your mana is already full!"
      else
        mana_amount <- effect_at item 1 ;;
        n <- int_operand mana_amount ;;
        let mp := Player.mp self + n in
        let mp := if Player.max_mp self <? mp then Player.max_mp self else mp in
        set_player (Player.set_mp self mp) ;;
        print (Player.name self ++ " uses a " ++ Item.name item ++ " and restores "
               ++ str_val mana_amount ++ " MP.") ;;
        print ("You now have " ++ str mp ++ "/" ++ str (Player.max_mp self) ++ " MP.") ;;
        inventory_remove item
    else ret tt.

(** [Player.attack(self, target)], the target being the world's enemy. *)
Definition Player_attack : M unit :=
  self <- get_player ;;
  target <- get_enemy ;;
  type_text (Player.name self ++ " attacks " ++ Enemy.name target ++ "!") ;;
  agility <- to_float (Stats.agility (Player.stats self)) ;;
  let crit_chance := (agility * 0.015)%float in
  roll <- randint (-2) 5 ;;
  let base_damage := Stats.strength (Player.stats self) + roll in
  r <- random ;;
  damage <- (if (r <? crit_chance)%float then
               type_text "CRITICAL HIT!" ;;
               b <- to_float base_damage ;;
               int_of_float (b * 1.8)%float
             else ret base_damage) ;;
  let damage := if damage <? 1 then 1 else damage in
  Enemy_take_damage damage.

(** [Player.special_move(self, target)], the target being the world's enemy. *)
Definition Player_special_move : M bool :=
  let cost := 15 in
  self <- get_player ;;
  target <- get_enemy ;;
  if Player.mp self <? cost then
    type_text ("Not enough MP! (Costs " ++ str cost ++ ")") ;;
    ret false
  else
    let mp := Player.mp self - cost in
    set_player (Player.set_mp self mp) ;;
    type_text (Player.name self ++ " uses a special move! (" ++ str mp ++ "/"
               ++ str (Player.max_mp self) ++ " MP)") ;;
    (if Player.char_class self == "Guardian" then
       roll <- randint 5 10 ;;
       let damage := Stats.strength (Player.stats self) + roll in
       type_text "You use **Shield Bash**!" ;;
       type_text ("It's a powerful blow, staggering the " ++ Enemy.name target ++ ".") ;;
       Enemy_take_damage damage
     else if Player.char_class self == "Mage" then
       roll <- randint 8 15 ;;
       let damage := Stats.magic (Player.stats self) + roll in
       type_text "You conjure a **Fireball**!" ;;
       type_text ("The flame erupts over the " ++ Enemy.name target ++ ".") ;;
       Enemy_take_damage damage
     else if Player.char_class self == "Shadow" then
       roll <- randint 6 12 ;;
       let damage := Stats.agility (Player.stats self) + roll in
       type_text "You unleash a **Shadow Strike**!" ;;
       type_text "You strike from an unexpected angle." ;;
       Enemy_take_damage damage
     else ret tt) ;;
    ret true.

(** [Enemy.attack(self, target)]: the world's enemy attacks the world's
    player. *)
Definition Enemy_attack : M unit :=
  self <- get_enemy ;;
  target <- get_player ;;
  type_text (Enemy.name self ++ " attacks " ++ Player.name target ++ "!") ;;
  if Player.is_defending target then
    roll <- randint 1 4 ;;
    let damage := Enemy.strength self + roll in
    let damage := damage / 2 in
    type_text (Player.name target ++ " defends against the attack, taking reduced damage.") ;;
    Player_take_damage damage
  else
    agility <- to_float (Stats.agility (Player.stats target)) ;;
    let dodge_chance := (agility * 0.01)%float in
    r <- random ;;
    if (r <? dodge_chance)%float then
      type_text (Player.name target ++ " nimbly dodges the attack!")
    else
      roll <- randint 1 6 ;;
      let damage := Enemy.strength self + roll in
      Player_take_damage damage.

(** [item_counts[name] = item_counts.get(name, 0) + 1] on a dictionary kept
    in insertion order. *)
Fixpoint count_name (counts : list (string * Z)) (name : string) : list (string * Z) :=
  match counts with
  | [] => [(name, 1)]
  | (k, c) :: rest =>
      if k == name then (k, c + 1) :: rest else (k, c) :: count_name rest name
  end.

Fixpoint print_counts (counts : list (string * Z)) : M unit :=
  match counts with
  | [] => ret tt
  | (name, count) :: rest =>
      print ("  " ++ name ++ " (x" ++ str count ++ ")") ;; print_counts rest
  end.

(** How one pass through the body of a [while True] loop ends. *)
Inductive Ctl := Continue | Return.

(** The [try] statement in the loop of [Player.show_inventory], run on an
    [action] that is not ['back']. *)
Definition inventory_command (action : string) : M Ctl :=
  try_except_ValueError
    (match split_space_once action with
     | [command; item_name] =>
         self <- get_player ;;
         match find (fun item => lower (Item.name item) == item_name)
                    (Player.inventory self) with
         | None =>
             print ("You don't have an item called '" ++ item_name ++ "'.") ;;
             ret Continue
         | Some item_to_act =>
             if command == "use" then
               Player_use_item item_to_act ;;
               ret Return
             else if command == "view" then
               print (NL ++ Item.name item_to_act ++ ": "
                      ++ Item.description item_to_act) ;;
               ret Continue
             else if command == "discard" then
               inventory_remove item_to_act ;;
               print ("You discarded " ++ Item.name item_to_act ++ ".") ;;
               ret Continue
             else
               print ("Invalid command: '" ++ command ++ "'.") ;;
               ret Continue
         end
     | _ => raise ValueError
     end)
    (print "Invalid format. Try 'use health potion' or 'back'." ;;
     ret Continue).

(** The [while True] loop of [Player.show_inventory]. *)
Fixpoint show_inventory_loop (fuel : nat) : M unit :=
  match fuel with
  | O => fun _ => OutOfFuel
  | S fuel' =>
      print "Type 'use [item]', 'view [item]', 'discard [item]', or 'back'." ;;
      line <- input "> " ;;
      let action := strip (lower line) in
      if action == "back" then ret tt
      else
        ctl <- inventory_command action ;;
        match ctl with
        | Return => ret tt
        | Continue => show_inventory_loop fuel'
        end
  end.

(** [Player.show_inventory(self)]. *)
Definition Player_show_inventory (fuel : nat) : M unit :=
  print (NL ++ "--- INVENTORY ---") ;;
  self <- get_player ;;
  match Player.inventory self with
  | [] =>
      print "  Your bag is empty." ;;
      print "-----------------"
  | _ =>
      let item_counts :=
        fold_left (fun counts item => count_name counts (Item.name item))
                  (Player.inventory self) [] in
      print_counts item_counts ;;
      print "-----------------" ;;
      show_inventory_loop fuel
  end.

(** ** The combat loop *)

(** How one pass through the body of the loop [while not action_taken]
    ends: with a value of [action_taken], or with a [return] of
    [start_combat]. *)
Inductive Step :=
| Done (action_taken : bool)
| Returns (r : string).

(** The body of the loop [while not action_taken] of [start_combat] after
    the line is read. *)
Definition player_action (fuel : nat) (action : string) : M Step :=
  if action == "attack" then
    Player_attack ;;
    ret (Done true)
  else if action == "special" then
    action_taken <- Player_special_move ;;
    ret (Done action_taken)
  else if action == "defend" then
    modify_player (fun p => Player.set_is_defending p true) ;;
    p <- get_player ;;
    type_text (Player.name p ++ " takes a defensive stance.") ;;
    ret (Done true)
  else if action == "item" then
    Player_show_inventory fuel ;;
    print (NL ++ "What will you do? (attack, special, defend, item, flee)") ;;
    ret (Done false)
  else if action == "flee" then
    r <- random ;;
    if (0.33 <? r)%float then
      type_text "You successfully fled the battle!" ;;
      ret (Returns "fled")
    else
      type_text "You couldn't get away!" ;;
      ret (Done true)
  else
    print "Invalid command. Choose: attack, special, defend, item, flee" ;;
    ret (Done false).

(** The loop [while not action_taken] of [start_combat]: [Some r] when
    [start_combat] returns [r] from inside it, [None] when it ends with
    [action_taken] set. *)
Fixpoint player_turn (fuel : nat) : M (option string) :=
  match fuel with
  | O => fun _ => OutOfFuel
  | S fuel' =>
      line <- input "> " ;;
      step <- player_action fuel' (strip (lower line)) ;;
      match step with
      | Returns r => ret (Some r)
      | Done true => ret None
      | Done false => player_turn fuel'
      end
  end.

(** What follows the player's turn in the body of the main loop: the check
    of the enemy's death, the enemy's turn, the check of the player's death;
    [again] is the next pass through the loop. *)
Definition after_player_turn (again : M string) : M string :=
  e <- get_enemy ;;
  if negb (Enemy_is_alive e) then
    type_text (NL ++ Enemy.name e ++ " has been defeated!") ;;
    ret "victory"
  else
    print (NL ++ "--- ENEMY'S TURN ---") ;;
    Enemy_attack ;;
    p <- get_player ;;
    if negb (Player_is_alive p) then ret "defeat"
    else again.

(** The head of the body of the main loop: the reset of the per-turn flag
    and the banner of the player's turn. *)
Definition begin_player_turn : M unit :=
  modify_player (fun p => Player.set_is_defending p false) ;;
  print (NL ++ "--- PLAYER'S TURN ---") ;;
  p <- get_player ;;
  e <- get_enemy ;;
  print (Player.name p ++ " [HP: " ++ str (Player.hp p) ++ "/"
         ++ str (Player.max_hp p) ++ " | MP: " ++ str (Player.mp p) ++ "/"
         ++ str (Player.max_mp p) ++ "]") ;;
  print (Enemy.name e ++ " [HP: " ++ str (Enemy.hp e) ++ "/"
         ++ str (Enemy.max_hp e) ++ "]") ;;
  print "What will you do? (attack, special, defend, item, flee)".

(** The loop [while player.is_alive() and enemy.is_alive()] of
    [start_combat], with the [return 'defeat'] after it. *)
Fixpoint combat_loop (fuel : nat) : M string :=
  match fuel with
  | O => fun _ => OutOfFuel
  | S fuel' =>
      p <- get_player ;;
      e <- get_enemy ;;
      if (Player_is_alive p && Enemy_is_alive e)%bool then
        begin_player_turn ;;
        returned <- player_turn fuel ;;
        match returned with
        | Some r => ret r
        | None => after_player_turn (combat_loop fuel')
        end
      else ret "defeat"
  end.

(** The two loops with their bound: every pass through one of them reads a
    line, so one more pass than there are lines is bound enough. *)
Definition run_player_turn : M (option string) :=
  fun w => player_turn (S (List.length (stdin w))) w.

Definition run_combat_loop : M string :=
  fun w => combat_loop (S (List.length (stdin w))) w.

(** [start_combat(enemy)]. *)
Definition start_combat (e : Enemy.t) : M string :=
  set_enemy e ;;
  type_text (NL ++ "--- A wild " ++ Enemy.name e ++ " appears! ---") ;;
  type_text (Enemy.description e) ;;
  run_combat_loop.

(** ** Relations every step of a run keeps *)

(** [keeps R m]: from any world, whatever way [m] ends, the world it ends
    in is related by [R] to the one it started from. *)
Definition keeps (R : World -> World -> Prop) {A} (m : M A) : Prop :=
  forall w,
    match m w with
    | Ok _ w' | Raise _ w' | Stuck w' => R w w'
    | OutOfFuel => True
    end.

(** The enemy is the same. *)
Definition same_enemy (w w' : World) : Prop := enemy w' = enemy w.

(** No line has been put back into the input. *)
Definition input_shrinks (w w' : World) : Prop :=
  (List.length (stdin w') <= List.length (stdin w))%nat.

(** ** The loop bound *)

(** [total m]: [m] never reaches the loop bound. *)
Definition total {A} (m : M A) : Prop := forall w, m w <> OutOfFuel.

(** [enough n m]: [m] does not reach the loop bound from a world with fewer
    than [n] lines left to read. *)
Definition enough (n : nat) {A} (m : M A) : Prop :=
  forall w, (List.length (stdin w) < n)%nat -> m w <> OutOfFuel.

(** [consumes m]: when [m] returns it has read a line. *)
Definition consumes {A} (m : M A) : Prop :=
  forall w a w', m w = Ok a w' -> (List.length (stdin w') < List.length (stdin w))%nat.

(** [later f g]: wherever [f] ends without reaching the loop bound, [g] ends
    the same way. *)
Definition later {A} (f g : M A) : Prop :=
  forall w, f w <> OutOfFuel -> g w = f w.

(** ** Notions of the statements *)

(** [int(base * 1.8)] as [Player.attack] computes it on a critical hit. *)
Definition critical_damage (base : Z) : PyExn + Z :=
  match py_float_of_int base with
  | Some b => py_int_of_float (b * 1.8)%float
  | None => inl OverflowError
  end.

(** The last thing written is the line [s]. *)
Definition ends_with (w : World) (s : string) : Prop :=
  exists out, stdout w = (out ++ [Line s])%list.

(** The exact value of a finite float, as a numerator and a positive
    denominator. *)
Definition float_as_fraction (f : float) : option (Z * Z) :=
  match Prim2SF f with
  | S754_zero _ => Some (0, 1)
  | S754_finite s m e =>
      let n := if s then Zneg m else Zpos m in
      if e <? 0 then Some (n, 2 ^ (- e)) else Some (n * 2 ^ e, 1)
  | _ => None
  end.

(** ** The fixtures of [test_game.py] *)

(** [TestCombatMechanics.setUp] before the call of [setup_class]: the
    player ["TestHero"] and the enemy ["Test Golem"], nothing typed, nothing
    drawn, nothing written. *)
Definition test_world : World :=
  mkWorld (Player_new "TestHero") (Enemy_new "Test Golem" 50 10 5 0 "A test.")
          0 [] [] [] [].

(** The same after [setup_class(c)]. *)
Definition class_world (c : string) : World :=
  match Player_setup_class c test_world with
  | Ok _ w => w
  | _ => test_world
  end.

(** [mock_randint.return_value = n] and [mock_random.return_value = r] for
    the next call of each. *)
Definition with_draws (w : World) (ints : list Z) (floats : list float) : World :=
  with_rand_floats (with_rand_ints w ints) floats.

(** ** Worlds the combat is meant for *)

(** A potion whose effect the code can apply is a tuple that starts with a
    string and an amount that is not negative; the other items are as they
    come. *)
Definition item_ok (item : Item.t) : Prop :=
  Item.item_type item = "potion" ->
  exists kind m rest,
    Item.effect item = Some (VStr kind :: VInt m :: rest) /\ 0 <= m.

(** The invariant of the data model: health and mana within their bounds,
    attributes that are not negative, an inventory the code can use. *)
Definition healthy (w : World) : Prop :=
  0 <= Player.hp (player w) <= Player.max_hp (player w) /\
  0 <= Player.mp (player w) <= Player.max_mp (player w) /\
  0 <= Enemy.hp (enemy w) <= Enemy.max_hp (enemy w) /\
  0 <= Stats.strength (Player.stats (player w)) /\
  0 <= Stats.agility (Player.stats (player w)) /\
  0 <= Stats.magic (Player.stats (player w)) /\
  0 <= Enemy.strength (enemy w) /\
  Forall item_ok (Player.inventory (player w)).

(** The attributes go through the float operations of the two attacks:
    the agility converts to a float, and so does every base damage
    strength + roll, whose product by 1.8 converts back to an integer. *)
Definition convertible (s : Stats.t) : Prop :=
  py_float_of_int (Stats.agility s) <> None /\
  forall roll, -2 <= roll <= 5 ->
               exists k, critical_damage (Stats.strength s + roll) = inr k.

(** What a combat leaves as it was: of the player all but health, mana,
    stance and inventory, which gains no item; of the enemy all but health;
    and no object is made. *)
Definition combat_frame (w w' : World) : Prop :=
  Player.name (player w') = Player.name (player w) /\
  Player.char_class (player w') = Player.char_class (player w) /\
  Player.stats (player w') = Player.stats (player w) /\
  Player.max_hp (player w') = Player.max_hp (player w) /\
  Player.max_mp (player w') = Player.max_mp (player w) /\
  incl (Player.inventory (player w')) (Player.inventory (player w)) /\
  Enemy.set_hp (enemy w') (Enemy.hp (enemy w)) = enemy w /\
  next_id w' = next_id w.

(** [guarded I X r]: the result [r] ends in a world of [I], and with an
    exception [e] in a world [w'] only under [X e w']. *)
Definition guarded (I : World -> Prop) (X : PyExn -> World -> Prop) {A}
    (r : Res A) : Prop :=
  match r with
  | Ok _ w' | Stuck w' => I w'
  | Raise e w' => I w' /\ X e w'
  | OutOfFuel => True
  end.

(** [guards I X m]: from a world of [I], [m] ends guarded. *)
Definition guards (I : World -> Prop) (X : PyExn -> World -> Prop) {A}
    (m : M A) : Prop :=
  forall w, I w -> guarded I X (m w).

(** The exception of [input] at the end of the typed lines. *)
Definition end_of_input (e : PyExn) (w : World) : Prop :=
  e = EOFError /\ stdin w = [].

(** The worlds a combat started in [w0] can reach: those within the frame
    of [w0], and healthy if [w0] was. *)
Definition combat_inv (w0 w : World) : Prop :=
  combat_frame w0 w /\ (healthy w0 -> healthy w).

(** The exceptions a combat started in [w0] can raise: when [w0] is
    healthy and its attributes are convertible, none but that of the end of
    the input. *)
Definition combat_exn (w0 : World) (e : PyExn) (w : World) : Prop :=
  end_of_input e w \/ ~ (healthy w0 /\ convertible (Player.stats (player w0))).

(** The exceptions the inventory screen opened in [w0] can raise: when [w0]
    is healthy, none but that of the end of the input. *)
Definition item_exn (w0 : World) (e : PyExn) (w : World) : Prop :=
  end_of_input e w \/ ~ healthy w0.

(** The player has the same stance. *)
Definition same_stance (w w' : World) : Prop :=
  Player.is_defending (player w') = Player.is_defending (player w).

(** The world in which a run ended, however it ended. *)
Definition final_world {A} (r : Res A) : option World :=
  match r with
  | Ok _ w | Raise _ w | Stuck w => Some w
  | OutOfFuel => None
  end.

(** The draws still to come are the same. *)
Definition same_draws (w w' : World) : Prop :=
  rand_ints w' = rand_ints w /\ rand_floats w' = rand_floats w.

(** [counts.get(name, 0)] on the dictionary of [Player.show_inventory]. *)
Fixpoint counts_get (counts : list (string * Z)) (name : string) : Z :=
  match counts with
  | [] => 0
  | (k, c) :: rest => if k == name then c else counts_get rest name
  end.

(** * Properties *)

(** ** Running the embedded code *)

(** Unfolds the monad and the console, world and object primitives, leaving
    the strings and the arithmetic as they are. *)
Ltac run :=
  cbv beta iota delta
    [bind ret raise try_except_ValueError get_player set_player get_enemy
     set_enemy print type_text modify_player inventory_append set_vitals
     to_float int_of_float effect_at int_operand inventory_remove Item_new];
  cbn [player enemy next_id rand_ints rand_floats stdin stdout
       with_player with_enemy with_next_id with_rand_ints with_rand_floats
       with_stdin with_stdout].

Lemma clamp_at_zero (n : Z) : (if n <? 0 then 0 else n) = Z.max 0 n.
Proof. destruct (Z.ltb_spec n 0); lia. Qed.

Lemma floor_at_one (n : Z) : (if n <? 1 then 1 else n) = Z.max 1 n.
Proof. destruct (Z.ltb_spec n 1); lia. Qed.

Lemma clamp_at_max (m n : Z) : (if m <? n then m else n) = Z.min n m.
Proof. destruct (Z.ltb_spec m n); lia. Qed.

(** What [take_damage] does to the two kinds of combatant. *)
Lemma Player_take_damage_run (damage : Z) (w : World) :
  exists out,
    Player_take_damage damage w =
    Ok tt (with_stdout
             (with_player w (Player.set_hp (player w)
                               (Z.max 0 (Player.hp (player w) - damage))))
             (stdout w ++ [Line out])).
Proof.
  unfold Player_take_damage. run. rewrite clamp_at_zero. eexists. reflexivity.
Qed.

Lemma Enemy_take_damage_run (damage : Z) (w : World) :
  exists out,
    Enemy_take_damage damage w =
    Ok tt (with_stdout
             (with_enemy w (Enemy.set_hp (enemy w)
                              (Z.max 0 (Enemy.hp (enemy w) - damage))))
             (stdout w ++ [Line out])).
Proof.
  unfold Enemy_take_damage. run. rewrite clamp_at_zero. eexists. reflexivity.
Qed.

(** ** take_damage *)

(** C5, as amended.  For the player and for an enemy, and for every integer
    amount, [take_damage(amount)] returns and leaves
    [health = max(0, health - amount)], every other field being as before;
    health is then never below 0, and it stays at most [max_health] when the
    amount is not negative and health was within [0 .. max_health] before. *)
Theorem C5_take_damage_clamps (w : World) (amount : Z) :
  (exists w',
      Player_take_damage amount w = Ok tt w' /\
      player w' = Player.set_hp (player w) (Z.max 0 (Player.hp (player w) - amount)) /\
      enemy w' = enemy w /\
      0 <= Player.hp (player w') /\
      (0 <= amount ->
       0 <= Player.hp (player w) <= Player.max_hp (player w) ->
       0 <= Player.hp (player w') <= Player.max_hp (player w'))) /\
  (exists w',
      Enemy_take_damage amount w = Ok tt w' /\
      enemy w' = Enemy.set_hp (enemy w) (Z.max 0 (Enemy.hp (enemy w) - amount)) /\
      player w' = player w /\
      0 <= Enemy.hp (enemy w') /\
      (0 <= amount ->
       0 <= Enemy.hp (enemy w) <= Enemy.max_hp (enemy w) ->
       0 <= Enemy.hp (enemy w') <= Enemy.max_hp (enemy w'))).
Proof.
  split.
  - destruct (Player_take_damage_run amount w) as [out E].
    eexists. split; [exact E|]. cbn. repeat split; try lia.
  - destruct (Enemy_take_damage_run amount w) as [out E].
    eexists. split; [exact E|]. cbn. repeat split; try lia.
Qed.

Lemma C5_take_damage_clamps_witness :
  exists w',
    Player_take_damage 30 test_world = Ok tt w' /\
    Player.hp (player w') = 70 /\
    0 <= Player.hp (player w') <= Player.max_hp (player w').
Proof.
  destruct (C5_take_damage_clamps test_world 30)
    as [[w' (E & Hp & _ & _ & Hb)] _].
  exists w'. split; [exact E|]. split.
  - rewrite Hp. reflexivity.
  - apply Hb; cbn; lia.
Defined.

(** C5 as the specification words it fails: a negative amount raises health,
    here from 100 of 100 to 105. *)
Lemma C5_counterexample :
  ~ (forall (w : World) (amount : Z) (w' : World),
        0 <= Player.hp (player w) <= Player.max_hp (player w) ->
        Player_take_damage amount w = Ok tt w' ->
        0 <= Player.hp (player w') <= Player.max_hp (player w')).
Proof.
  intro H.
  assert (B : 0 <= 105 <= 100).
  { apply (H test_world (-5) _ ltac:(cbn; lia) eq_refl). }
  lia.
Qed.

(** ** setup_class *)

(** C6.  On a player just made by [Player(name)], [setup_class] of each of
    the three classes returns and leaves exactly the values of the class
    table, with health and mana at their maxima, and an inventory of three new
    objects: the weapon of the class, whose effect is a boost of 2 that the
    statistics do not include, then two Health Potions whose effect is
    [('heal', 25)]. *)
Theorem C6_setup_class_table (name : string) (w : World) :
  let n := next_id w in
  let potion i :=
    Item.mk i "Health Potion" "Restores 25 HP." "potion" (Some [VStr "heal"; VInt 25]) in
  let made p := Ok tt (with_next_id (with_player w p) (S (S (S n)))) in
  let fresh := with_player w (Player_new name) in
  Player_setup_class "Guardian" fresh =
    made (Player.mk name "Guardian" (Stats.mk 15 8 5) 120 120 30 30
            [Item.mk n "Soldier's Sword" "A reliable steel sword." "weapon"
               (Some [VStr "boost"; VStr "strength"; VInt 2]);
             potion (S n); potion (S (S n))] false) /\
  Player_setup_class "Mage" fresh =
    made (Player.mk name "Mage" (Stats.mk 6 10 18) 80 80 80 80
            [Item.mk n "Apprentice Staff" "A smooth wooden staff, warm to the touch."
               "weapon" (Some [VStr "boost"; VStr "magic"; VInt 2]);
             potion (S n); potion (S (S n))] false) /\
  Player_setup_class "Shadow" fresh =
    made (Player.mk name "Shadow" (Stats.mk 10 16 10) 90 90 50 50
            [Item.mk n "Twin Daggers" "A pair of sharp, quiet daggers." "weapon"
               (Some [VStr "boost"; VStr "agility"; VInt 2]);
             potion (S n); potion (S (S n))] false).
Proof.
  repeat split.
Qed.

(** ** use_item *)

(** C9.  [use_item] of an item whose type is not ['potion'] returns after
    writing the line that refuses it, and changes nothing else: the player
    with the inventory, the enemy, the random source and the input are as
    before. *)
Theorem C9_use_item_rejects_non_potion (item : Item.t) (w : World) :
  Item.item_type item <> "potion" ->
  Player_use_item item w =
  Ok tt (with_stdout w
           (stdout w ++ [Line ("You can't 'use' " ++ Item.name item ++ " right now.")])).
Proof.
  intro H. unfold Player_use_item.
  apply String.eqb_neq in H. rewrite H. reflexivity.
Qed.

Lemma C9_use_item_rejects_non_potion_witness :
  let shard :=
    Item.mk 7 "Sunstone Shard" "A piece of the Sunstone, glowing with pure light."
            "artifact" None in
  let w := with_player test_world
             (Player.set_inventory (player test_world) [shard]) in
  Player_use_item shard w =
  Ok tt (with_stdout w [Line "You can't 'use' Sunstone Shard right now."]).
Proof.
  intros shard w.
  apply (C9_use_item_rejects_non_potion shard w).
  cbn. discriminate.
Defined.

Lemma remove_first_split (i : nat) (l1 l2 : list Item.t) (x : Item.t) :
  Item.id x = i ->
  (forall y, In y l1 -> Item.id y <> i) ->
  remove_first i (l1 ++ x :: l2) = Some (l1 ++ l2)%list.
Proof.
  intros Hx. induction l1 as [|y l1 IH]; intros Hl1; cbn.
  - rewrite Hx, Nat.eqb_refl. reflexivity.
  - destruct (Nat.eqb_spec (Item.id y) i) as [E|_].
    + exfalso. apply (Hl1 y); [left; reflexivity | exact E].
    + rewrite IH; [reflexivity|]. intros z Hz. apply Hl1. right. exact Hz.
Qed.

(** C7.  For an item of type ['potion'] whose effect is [('heal', m)]: when
    health equals its maximum, [use_item] writes that health is already full
    and changes nothing else, the inventory included; when health is below
    its maximum and the item is in the inventory, health becomes
    [min(health + m, max_health)] and the inventory loses the first
    occurrence of that object and nothing else.  The same holds of an effect
    [('mana', m)] with mana in the place of health. *)
Theorem C7_use_item_potion (item : Item.t) (w : World) (m : Z) (rest : list PyVal) :
  Item.item_type item = "potion" ->
  let p := player w in
  let consumed (p' : Player.t) :=
    forall l1 x l2,
      Player.inventory p = (l1 ++ x :: l2)%list ->
      Item.id x = Item.id item ->
      (forall y, In y l1 -> Item.id y <> Item.id item) ->
      exists w',
        Player_use_item item w = Ok tt w' /\
        player w' = Player.set_inventory p' (l1 ++ l2) /\
        enemy w' = enemy w /\ stdin w' = stdin w /\
        rand_ints w' = rand_ints w /\ rand_floats w' = rand_floats w in
  (Item.effect item = Some (VStr "heal" :: VInt m :: rest) ->
   (Player.hp p = Player.max_hp p ->
    Player_use_item item w =
    Ok tt (with_stdout w (stdout w ++ [Line "Your health is already full!"]))) /\
   (Player.hp p < Player.max_hp p ->
    consumed (Player.set_hp p (Z.min (Player.hp p + m) (Player.max_hp p))))) /\
  (Item.effect item = Some (VStr "mana" :: VInt m :: rest) ->
   (Player.mp p = Player.max_mp p ->
    Player_use_item item w =
    Ok tt (with_stdout w (stdout w ++ [Line "Your mana is already full!"]))) /\
   (Player.mp p < Player.max_mp p ->
    consumed (Player.set_mp p (Z.min (Player.mp p + m) (Player.max_mp p))))).
Proof.
  intros Hpotion p consumed. subst consumed p.
  split; intros Heff; split.
  - intros Hfull. unfold Player_use_item. rewrite Hpotion. run.
    rewrite Heff. cbn. rewrite Hfull, Z.eqb_refl. reflexivity.
  - intros Hlow l1 x l2 Hinv Hx Hl1. unfold Player_use_item. rewrite Hpotion. run.
    rewrite Heff. cbn.
    destruct (Z.eqb_spec (Player.hp (player w)) (Player.max_hp (player w))) as [E|_];
      [lia|].
    rewrite Hinv, (remove_first_split (Item.id item) l1 l2 x Hx Hl1).
    rewrite clamp_at_max. eexists. split; [reflexivity|].
    cbn. repeat split.
  - intros Hfull. unfold Player_use_item. rewrite Hpotion. run.
    rewrite Heff. cbn. rewrite Hfull, Z.eqb_refl. reflexivity.
  - intros Hlow l1 x l2 Hinv Hx Hl1. unfold Player_use_item. rewrite Hpotion. run.
    rewrite Heff. cbn.
    destruct (Z.eqb_spec (Player.mp (player w)) (Player.max_mp (player w))) as [E|_];
      [lia|].
    rewrite Hinv, (remove_first_split (Item.id item) l1 l2 x Hx Hl1).
    rewrite clamp_at_max. eexists. split; [reflexivity|].
    cbn. repeat split.
Qed.

(** [test_use_health_potion_at_full] and [test_use_health_potion_overheal],
    and the Mana Potion of the second stage drunk by a Mage at 60 of 80
    mana. *)
Lemma C7_use_item_potion_witness :
  let potion :=
    Item.mk 9 "Health Potion" "Restores 25 HP." "potion" (Some [VStr "heal"; VInt 25]) in
  let mana :=
    Item.mk 10 "Mana Potion" "Restores 25 MP." "potion" (Some [VStr "mana"; VInt 25]) in
  let guardian := Player.set_inventory (player (class_world "Guardian")) [potion] in
  let full := with_player test_world guardian in
  let hurt := with_player test_world (Player.set_hp guardian 110) in
  let mage :=
    with_player test_world
      (Player.set_mp (Player.set_inventory (player (class_world "Mage")) [potion; mana])
                     60) in
  Player_use_item potion full =
    Ok tt (with_stdout full [Line "Your health is already full!"]) /\
  (exists w',
      Player_use_item potion hurt = Ok tt w' /\
      Player.hp (player w') = 120 /\ Player.inventory (player w') = []) /\
  (exists w',
      Player_use_item mana mage = Ok tt w' /\
      Player.mp (player w') = 80 /\ Player.inventory (player w') = [potion]).
Proof.
  intros potion mana guardian full hurt mage. split; [|split].
  - pose proof (C7_use_item_potion potion full 25 [] eq_refl) as T.
    cbv zeta in T. destruct T as [T _].
    destruct (T eq_refl) as [Hfull _]. apply Hfull. reflexivity.
  - pose proof (C7_use_item_potion potion hurt 25 [] eq_refl) as T.
    cbv zeta in T. destruct T as [T _].
    destruct (T eq_refl) as [_ Hlow].
    destruct (Hlow ltac:(cbn; lia) [] potion [] eq_refl eq_refl
                   (fun y (H : In y []) => match H with end))
      as [w' (E & Hp & _)].
    exists w'. split; [exact E|]. rewrite Hp. split; reflexivity.
  - pose proof (C7_use_item_potion mana mage 25 [] eq_refl) as T.
    cbv zeta in T. destruct T as [_ T].
    destruct (T eq_refl) as [_ Hlow].
    assert (Before : forall y, In y [potion] -> Item.id y <> Item.id mana).
    { intros y [Hy|[]]. subst y. cbn. discriminate. }
    destruct (Hlow ltac:(cbn; lia) [potion] mana [] eq_refl eq_refl Before)
      as [w' (E & Hp & _)].
    exists w'. split; [exact E|]. rewrite Hp. split; reflexivity.
Defined.

(** ** special_move *)

Lemma bind_const_result {A B} (m : M A) (c b : B) (w w' : World) :
  bind m (fun _ => ret c) w = Ok b w' -> b = c.
Proof.
  unfold bind, ret. destruct (m w); intros H; inversion H; reflexivity.
Qed.

(** C10.  When the class of the player is none of ["Guardian"], ["Mage"] and
    ["Shadow"] and mana is at least 15, [special_move] returns [True] with
    mana lowered by exactly 15 and one line written; the enemy is untouched
    and nothing is drawn. *)
Theorem C10_special_move_unknown_class (w : World) :
  let p := player w in
  Player.char_class p <> "Guardian" ->
  Player.char_class p <> "Mage" ->
  Player.char_class p <> "Shadow" ->
  15 <= Player.mp p ->
  Player_special_move w =
  Ok true
     (with_stdout (with_player w (Player.set_mp p (Player.mp p - 15)))
        (stdout w ++ [Line (Player.name p ++ " uses a special move! ("
                            ++ str (Player.mp p - 15) ++ "/"
                            ++ str (Player.max_mp p) ++ " MP)")])).
Proof.
  intros p HG HM HS Hmp. subst p.
  apply String.eqb_neq in HG, HM, HS.
  unfold Player_special_move. run.
  destruct (Z.ltb_spec (Player.mp (player w)) 15) as [L|_]; [lia|].
  cbn. rewrite HG, HM, HS. reflexivity.
Qed.

Lemma C10_special_move_unknown_class_witness :
  exists w',
    Player_special_move test_world = Ok true w' /\
    Player.mp (player w') = 35 /\ enemy w' = enemy test_world.
Proof.
  eexists. split.
  - apply (C10_special_move_unknown_class test_world); cbn; (discriminate || lia).
  - split; reflexivity.
Defined.

(** C4.  [special_move] returns [False] exactly when mana is below 15, and
    then it has written one line and changed nothing else.  With mana at
    least 15 and a roll in the range of the class, it returns [True], mana
    is lowered by exactly 15 and the enemy takes the damage of the class
    through [take_damage]: strength + roll of 5..10 for a Guardian,
    magic + roll of 8..15 for a Mage, agility + roll of 6..12 for a Shadow;
    no float is drawn.  And the move of a class returns [True] with a roll
    of that range only: 5..10 for a Guardian, 8..15 for a Mage, 6..12 for a
    Shadow. *)
Theorem C4_special_move (w : World) :
  let p := player w in
  let e := enemy w in
  let hit (stat lo hi : Z) :=
    forall roll ints,
      rand_ints w = roll :: ints ->
      lo <= roll <= hi ->
      exists w',
        Player_special_move w = Ok true w' /\
        player w' = Player.set_mp p (Player.mp p - 15) /\
        enemy w' = Enemy.set_hp e (Z.max 0 (Enemy.hp e - (stat + roll))) /\
        rand_ints w' = ints /\ rand_floats w' = rand_floats w in
  let drew (lo hi : Z) :=
    exists roll ints, rand_ints w = roll :: ints /\ lo <= roll <= hi in
  (forall b w', Player_special_move w = Ok b w' -> (b = false <-> Player.mp p < 15)) /\
  (Player.mp p < 15 ->
   Player_special_move w =
   Ok false (with_stdout w (stdout w ++ [Line "Not enough MP! (Costs 15)"]))) /\
  (15 <= Player.mp p ->
   (Player.char_class p = "Guardian" -> hit (Stats.strength (Player.stats p)) 5 10) /\
   (Player.char_class p = "Mage" -> hit (Stats.magic (Player.stats p)) 8 15) /\
   (Player.char_class p = "Shadow" -> hit (Stats.agility (Player.stats p)) 6 12)) /\
  (forall w',
      Player_special_move w = Ok true w' ->
      (Player.char_class p = "Guardian" -> drew 5 10) /\
      (Player.char_class p = "Mage" -> drew 8 15) /\
      (Player.char_class p = "Shadow" -> drew 6 12)).
Proof.
  intros p e hit drew. subst p e hit drew. cbv beta.
  assert (Low : Player.mp (player w) < 15 ->
                Player_special_move w =
                Ok false (with_stdout w (stdout w ++ [Line "Not enough MP! (Costs 15)"]))).
  { intros L. unfold Player_special_move. run.
    destruct (Z.ltb_spec (Player.mp (player w)) 15) as [_|G]; [reflexivity | lia]. }
  split; [|split; [exact Low|split]].
  - intros b w' E.
    destruct (Z.ltb_spec (Player.mp (player w)) 15) as [L|G].
    + rewrite (Low L) in E. inversion E. tauto.
    + unfold Player_special_move in E.
      unfold bind at 1 2 in E. unfold get_player at 1, get_enemy at 1 in E.
      destruct (Z.ltb_spec (Player.mp (player w)) 15) as [L|_]; [lia|].
      unfold bind at 1 2 in E. cbn [set_player type_text print] in E.
      apply bind_const_result in E. subst b. split; [discriminate | lia].
  - intros G.
    repeat split; intros Hc roll ints Hints Hroll;
      unfold Player_special_move; run;
      (destruct (Z.ltb_spec (Player.mp (player w)) 15) as [L|_]; [lia|]);
      cbn; rewrite Hc; cbn; unfold randint; cbn; rewrite Hints;
      (destruct (Z.leb_spec 5 roll), (Z.leb_spec 8 roll), (Z.leb_spec 6 roll),
         (Z.leb_spec roll 10), (Z.leb_spec roll 15), (Z.leb_spec roll 12);
       try lia); cbn;
      unfold Enemy_take_damage; run; rewrite clamp_at_zero;
      eexists; (split; [reflexivity|]); cbn; repeat split.
  - intros w' E.
    repeat split; intros Hc; revert E;
      unfold Player_special_move; run;
      (destruct (Player.mp (player w) <? 15); [discriminate|]);
      rewrite Hc; cbn [String.eqb Ascii.eqb Bool.eqb];
      unfold randint; cbn [rand_ints with_stdout with_player];
      (destruct (rand_ints w) as [|roll ints]; [discriminate|]);
      match goal with
      | |- context [((?lo <=? roll) && (roll <=? ?hi))%bool] =>
          destruct (Z.leb_spec lo roll), (Z.leb_spec roll hi); cbn [andb];
            try discriminate
      end;
      intros _; exists roll, ints; (split; [reflexivity | lia]).
Qed.

(** [test_player_special_move_mage] and [test_player_special_move_no_mp]:
    a Mage of magic 18 who rolls 10 deals 28, leaving 22 of 50 and 65 of 80
    mana; with 10 mana the move fails and nothing changes; and the move of a
    Guardian does not return with a roll of 11. *)
Lemma C4_special_move_witness :
  (exists w',
      Player_special_move (with_draws (class_world "Mage") [10] []) = Ok true w' /\
      Enemy.hp (enemy w') = 50 - (18 + 10) /\ Player.mp (player w') = 80 - 15) /\
  (let tired :=
     with_player (class_world "Mage") (Player.set_mp (player (class_world "Mage")) 10) in
   exists w',
     Player_special_move tired = Ok false w' /\
     enemy w' = enemy tired /\ player w' = player tired) /\
  ~ (exists w',
        Player_special_move (with_draws (class_world "Guardian") [11] []) = Ok true w').
Proof.
  split; [|split].
  - pose proof (C4_special_move (with_draws (class_world "Mage") [10] [])) as T.
    cbv zeta in T. destruct T as (_ & _ & T & _).
    destruct (T ltac:(cbn; lia)) as (_ & TM & _).
    destruct (TM eq_refl 10 [] eq_refl ltac:(lia)) as [w' (E & Hp & He & _)].
    exists w'. split; [exact E|]. rewrite Hp, He. split; reflexivity.
  - intros tired.
    pose proof (C4_special_move tired) as T.
    cbv zeta in T. destruct T as (_ & T & _).
    eexists. split; [apply T; cbn; lia|]. split; reflexivity.
  - intros [w' E].
    pose proof (C4_special_move (with_draws (class_world "Guardian") [11] [])) as T.
    cbv zeta in T. destruct T as (_ & _ & _ & T).
    destruct (T w' E) as (TG & _).
    destruct (TG eq_refl) as (roll & ints & Hi & Hr).
    inversion Hi; subst roll. lia.
Defined.

(** ** Player.attack *)

(** On every base damage from -1000 to 10000 the float computation gives
    the exact product [base * 18 / 10] truncated toward zero. *)
Lemma critical_damage_truncates (base : Z) :
  -1000 <= base <= 10000 ->
  critical_damage base = inr (Z.quot (base * 18) 10).
Proof.
  intros H.
  pose (check := fun n : nat =>
          let b := Z.of_nat n - 1000 in
          match critical_damage b with
          | inr k => k =? Z.quot (b * 18) 10
          | inl _ => false
          end).
  assert (All : forallb check (seq 0 (Z.to_nat 11001)) = true) by (vm_compute; reflexivity).
  rewrite forallb_forall in All.
  specialize (All (Z.to_nat (base + 1000))).
  unfold check in All. cbv zeta in All.
  replace (Z.of_nat (Z.to_nat (base + 1000)) - 1000) with base in All by lia.
  destruct (critical_damage base) as [e|k].
  - discriminate All. apply in_seq. lia.
  - f_equal. apply Z.eqb_eq. apply All. apply in_seq. lia.
Qed.

(** C2.  In [Player.attack] with a roll of -2..5 and a float draw of [0, 1),
    the base damage is strength + roll; when the draw is below
    [agility * 0.015] the damage is [int(base * 1.8)], which for every base
    from -1000 to 10000 is the product truncated toward zero, and otherwise
    it is the base; the damage is raised to 1 when it is less, and the enemy
    is left with [max(0, health - damage)].  The player is unchanged. *)
Theorem C2_player_attack (w : World) (roll : Z) (ints : list Z)
    (r : float) (floats : list float) (a : float) :
  let p := player w in
  let e := enemy w in
  let base := Stats.strength (Player.stats p) + roll in
  let hits (damage : Z) :=
    exists w',
      Player_attack w = Ok tt w' /\
      enemy w' = Enemy.set_hp e (Z.max 0 (Enemy.hp e - Z.max 1 damage)) /\
      player w' = p /\ rand_ints w' = ints /\ rand_floats w' = floats in
  rand_ints w = roll :: ints ->
  -2 <= roll <= 5 ->
  rand_floats w = r :: floats ->
  (0 <=? r)%float = true ->
  (r <? 1)%float = true ->
  py_float_of_int (Stats.agility (Player.stats p)) = Some a ->
  ((r <? a * 0.015)%float = false -> hits base) /\
  ((r <? a * 0.015)%float = true ->
   (forall k, critical_damage base = inr k -> hits k) /\
   (-1000 <= base <= 10000 -> hits (Z.quot (base * 18) 10))).
Proof.
  intros p e base hits Hints Hroll Hfloats Hr0 Hr1 Ha. subst p e base hits.
  cbv beta.
  assert (Crit : (r <? a * 0.015)%float = true ->
                 forall k,
                   critical_damage (Stats.strength (Player.stats (player w)) + roll) = inr k ->
                   exists w',
                     Player_attack w = Ok tt w' /\
                     enemy w' = Enemy.set_hp (enemy w)
                                  (Z.max 0 (Enemy.hp (enemy w) - Z.max 1 k)) /\
                     player w' = player w /\ rand_ints w' = ints /\
                     rand_floats w' = floats).
  { intros Hc k Hk. unfold critical_damage in Hk.
    destruct (py_float_of_int (Stats.strength (Player.stats (player w)) + roll))
      as [b|] eqn:Hb; [|discriminate].
    unfold Player_attack. run. rewrite Ha.
    unfold randint. cbn. rewrite Hints.
    destruct (Z.leb_spec (-2) roll), (Z.leb_spec roll 5); try lia. cbn.
    unfold random. cbn. rewrite Hfloats, Hr0, Hr1. cbn. rewrite Hc.
    rewrite Hb, Hk.
    unfold Enemy_take_damage. run. rewrite floor_at_one, clamp_at_zero.
    eexists. split; [reflexivity|]. cbn. repeat split. }
  split.
  - intros Hc.
    unfold Player_attack. run. rewrite Ha.
    unfold randint. cbn. rewrite Hints.
    destruct (Z.leb_spec (-2) roll), (Z.leb_spec roll 5); try lia. cbn.
    unfold random. cbn. rewrite Hfloats, Hr0, Hr1. cbn. rewrite Hc.
    unfold Enemy_take_damage. run. rewrite floor_at_one, clamp_at_zero.
    eexists. split; [reflexivity|]. cbn. repeat split.
  - intros Hc. split.
    + exact (Crit Hc).
    + intros Hrange. apply (Crit Hc). apply critical_damage_truncates. exact Hrange.
Qed.

(** [test_player_attack_normal] and [test_player_attack_critical]: strength 6
    and roll 2 deal 8 to the 50 health of the enemy when the draw 0.9 is no
    critical hit, and [int(8 * 1.8) = 14] when the draw 0.0 is one. *)
Lemma C2_player_attack_witness :
  (exists w',
      Player_attack (with_draws (class_world "Mage") [2] [0.9%float]) = Ok tt w' /\
      Enemy.hp (enemy w') = 42) /\
  (exists w',
      Player_attack (with_draws (class_world "Mage") [2] [0%float]) = Ok tt w' /\
      Enemy.hp (enemy w') = 36).
Proof.
  split.
  - pose proof (C2_player_attack (with_draws (class_world "Mage") [2] [0.9%float])
                  2 [] 0.9%float [] 10%float
                  eq_refl ltac:(lia) eq_refl eq_refl eq_refl eq_refl) as T.
    cbv zeta in T. destruct T as [T _].
    destruct (T eq_refl) as [w' (E & He & _)].
    exists w'. split; [exact E|]. rewrite He. reflexivity.
  - pose proof (C2_player_attack (with_draws (class_world "Mage") [2] [0%float])
                  2 [] 0%float [] 10%float
                  eq_refl ltac:(lia) eq_refl eq_refl eq_refl eq_refl) as T.
    cbv zeta in T. destruct T as [_ T].
    destruct (T eq_refl) as [_ T'].
    destruct (T' ltac:(cbn; lia)) as [w' (E & He & _)].
    exists w'. split; [exact E|]. rewrite He. reflexivity.
Defined.

(** ** Enemy.attack *)

(** C3.  When the player is defending, [Enemy.attack] with a roll of 1..4
    draws no float and leaves the player with
    [max(0, health - (strength + roll) // 2)].  When the player is not
    defending, a float of [0, 1) is drawn first: below [agility * 0.01] the
    attack is dodged, nothing more is drawn and player and enemy are left
    exactly as they were; otherwise a roll of 1..6 is drawn and the player
    is left with [max(0, health - (strength + roll))].  And these are the
    only draws with which the attack returns: against a defending player
    the roll it has taken is one of 1..4, against the others the float is
    one of [0, 1) and the roll, when the attack is not dodged, one of
    1..6. *)
Theorem C3_enemy_attack (w : World) :
  let p := player w in
  let e := enemy w in
  let hits (damage : Z) (ints : list Z) (floats : list float) :=
    exists w',
      Enemy_attack w = Ok tt w' /\
      player w' = Player.set_hp p (Z.max 0 (Player.hp p - damage)) /\
      enemy w' = e /\ rand_ints w' = ints /\ rand_floats w' = floats in
  (Player.is_defending p = true ->
   forall roll ints,
     rand_ints w = roll :: ints ->
     1 <= roll <= 4 ->
     hits ((Enemy.strength e + roll) / 2) ints (rand_floats w)) /\
  (Player.is_defending p = false ->
   forall r floats a,
     rand_floats w = r :: floats ->
     (0 <=? r)%float = true ->
     (r <? 1)%float = true ->
     py_float_of_int (Stats.agility (Player.stats p)) = Some a ->
     ((r <? a * 0.01)%float = true ->
      exists w',
        Enemy_attack w = Ok tt w' /\
        player w' = p /\ enemy w' = e /\
        rand_ints w' = rand_ints w /\ rand_floats w' = floats) /\
     ((r <? a * 0.01)%float = false ->
      forall roll ints,
        rand_ints w = roll :: ints ->
        1 <= roll <= 6 ->
        hits (Enemy.strength e + roll) ints floats)) /\
  (forall w',
      Enemy_attack w = Ok tt w' ->
      (Player.is_defending p = true ->
       exists roll ints, rand_ints w = roll :: ints /\ 1 <= roll <= 4) /\
      (Player.is_defending p = false ->
       exists r floats a,
         rand_floats w = r :: floats /\
         (0 <=? r)%float = true /\ (r <? 1)%float = true /\
         py_float_of_int (Stats.agility (Player.stats p)) = Some a /\
         ((r <? a * 0.01)%float = false ->
          exists roll ints, rand_ints w = roll :: ints /\ 1 <= roll <= 6))).
Proof.
  intros p e hits. subst p e hits. cbv beta. split; [|split].
  - intros Hd roll ints Hints Hroll.
    unfold Enemy_attack. run. rewrite Hd.
    unfold randint. cbn. rewrite Hints.
    destruct (Z.leb_spec 1 roll), (Z.leb_spec roll 4); try lia. cbn.
    unfold Player_take_damage. run. rewrite clamp_at_zero.
    eexists. split; [reflexivity|]. cbn. repeat split.
  - intros Hd r floats a Hfloats Hr0 Hr1 Ha. split.
    + intros Hdodge.
      unfold Enemy_attack. run. rewrite Hd, Ha.
      unfold random. cbn. rewrite Hfloats, Hr0, Hr1. cbn. rewrite Hdodge.
      eexists. split; [reflexivity|]. cbn. repeat split.
    + intros Hdodge roll ints Hints Hroll.
      unfold Enemy_attack. run. rewrite Hd, Ha.
      unfold random. cbn. rewrite Hfloats, Hr0, Hr1. cbn. rewrite Hdodge.
      unfold randint. cbn. rewrite Hints.
      destruct (Z.leb_spec 1 roll), (Z.leb_spec roll 6); try lia. cbn.
      unfold Player_take_damage. run. rewrite clamp_at_zero.
      eexists. split; [reflexivity|]. cbn. repeat split.
  - intros w' E. split.
    + intros Hd. revert E. unfold Enemy_attack. run. rewrite Hd.
      unfold randint. cbn [rand_ints with_stdout].
      destruct (rand_ints w) as [|roll ints]; [discriminate|].
      destruct (Z.leb_spec 1 roll), (Z.leb_spec roll 4); cbn [andb];
        try discriminate.
      intros _. exists roll, ints. split; [reflexivity | lia].
    + intros Hd. revert E. unfold Enemy_attack. run. rewrite Hd.
      destruct (py_float_of_int (Stats.agility (Player.stats (player w))))
        as [a|]; [|discriminate].
      unfold random. cbn [rand_floats with_stdout].
      destruct (rand_floats w) as [|r floats]; [discriminate|].
      destruct (0 <=? r)%float eqn:Hr0; [|discriminate].
      destruct (r <? 1)%float eqn:Hr1; [|discriminate].
      cbn [andb]. intros E.
      exists r, floats, a.
      split; [reflexivity|]. split; [exact Hr0|]. split; [exact Hr1|].
      split; [reflexivity|].
      intros Hdodge. revert E. rewrite Hdodge.
      unfold randint. cbn [rand_ints with_stdout with_rand_floats].
      destruct (rand_ints w) as [|roll ints]; [discriminate|].
      destruct (Z.leb_spec 1 roll), (Z.leb_spec roll 6); cbn [andb];
        try discriminate.
      intros _. exists roll, ints. split; [reflexivity | lia].
Qed.

(** [test_enemy_attack_and_player_defend]: strength 10 and roll 4 against the
    defending Mage deal [14 // 2 = 7], leaving 73 of 80; and the same enemy
    against the Mage who does not defend: dodged on the draw 0.05, 14 damage on
    the draw 0.9; and the attack on the defending Mage does not return with
    a roll of 6. *)
Lemma C3_enemy_attack_witness :
  let mage := class_world "Mage" in
  let defending := with_player mage (Player.set_is_defending (player mage) true) in
  (exists w',
      Enemy_attack (with_draws defending [4] [0.9%float]) = Ok tt w' /\
      Player.hp (player w') = 80 - 7 /\ rand_floats w' = [0.9%float]) /\
  (exists w',
      Enemy_attack (with_draws mage [4] [0.05%float]) = Ok tt w' /\
      player w' = player mage /\ rand_ints w' = [4]) /\
  (exists w',
      Enemy_attack (with_draws mage [4] [0.9%float]) = Ok tt w' /\
      Player.hp (player w') = 80 - 14) /\
  ~ (exists w', Enemy_attack (with_draws defending [6] [0.9%float]) = Ok tt w').
Proof.
  intros mage defending. split; [|split; [|split]].
  - pose proof (C3_enemy_attack (with_draws defending [4] [0.9%float])) as T.
    cbv zeta in T. destruct T as [T _].
    destruct (T eq_refl 4 [] eq_refl ltac:(lia)) as [w' (E & Hp & _ & _ & Hf)].
    exists w'. split; [exact E|]. rewrite Hp, Hf. split; reflexivity.
  - pose proof (C3_enemy_attack (with_draws mage [4] [0.05%float])) as T.
    cbv zeta in T. destruct T as (_ & T & _).
    destruct (T eq_refl 0.05%float [] 10%float eq_refl eq_refl eq_refl eq_refl)
      as [T' _].
    destruct (T' eq_refl) as [w' (E & Hp & _ & Hi & _)].
    exists w'. split; [exact E|]. rewrite Hp, Hi. split; reflexivity.
  - pose proof (C3_enemy_attack (with_draws mage [4] [0.9%float])) as T.
    cbv zeta in T. destruct T as (_ & T & _).
    destruct (T eq_refl 0.9%float [] 10%float eq_refl eq_refl eq_refl eq_refl)
      as [_ T'].
    destruct (T' eq_refl 4 [] eq_refl ltac:(lia)) as [w' (E & Hp & _)].
    exists w'. split; [exact E|]. rewrite Hp. reflexivity.
  - intros [w' E].
    pose proof (C3_enemy_attack (with_draws defending [6] [0.9%float])) as T.
    cbv zeta in T. destruct T as (_ & _ & T).
    destruct (T w' E) as (TD & _).
    destruct (TD eq_refl) as (roll & ints & Hi & Hr).
    inversion Hi; subst roll. lia.
Defined.

(** ** What the parts of a player's turn leave alone *)

Section Keeps.
Variable R : World -> World -> Prop.
Hypothesis R_refl : forall w, R w w.
Hypothesis R_trans : forall a b c, R a b -> R b c -> R a c.
Hypothesis R_player : forall w p, R w (with_player w p).
Hypothesis R_next_id : forall w n, R w (with_next_id w n).
Hypothesis R_rand_ints : forall w l, R w (with_rand_ints w l).
Hypothesis R_rand_floats : forall w l, R w (with_rand_floats w l).
Hypothesis R_stdout : forall w l, R w (with_stdout w l).
Hypothesis R_stdin : forall w l rest, stdin w = l :: rest -> R w (with_stdin w rest).

Lemma keeps_ret {A} (a : A) : keeps R (ret a).
Proof. intros w. apply R_refl. Qed.

Lemma keeps_raise {A} (e : PyExn) : keeps R (@raise A e).
Proof. intros w. apply R_refl. Qed.

Lemma keeps_bind {A B} (m : M A) (k : A -> M B) :
  keeps R m -> (forall a, keeps R (k a)) -> keeps R (bind m k).
Proof.
  intros Hm Hk w. unfold bind. specialize (Hm w).
  destruct (m w) as [a w1|e w1|w1|]; auto.
  specialize (Hk a w1). destruct (k a w1); eauto.
Qed.

Lemma keeps_try {A} (body handler : M A) :
  keeps R body -> keeps R handler -> keeps R (try_except_ValueError body handler).
Proof.
  intros Hb Hh w. unfold try_except_ValueError. specialize (Hb w).
  destruct (body w) as [a w1|e w1|w1|]; auto.
  destruct e; auto.
  specialize (Hh w1). destruct (handler w1); eauto.
Qed.

Lemma keeps_get_player : keeps R get_player.
Proof. intros w. apply R_refl. Qed.

Lemma keeps_get_enemy : keeps R get_enemy.
Proof. intros w. apply R_refl. Qed.

Lemma keeps_set_player (p : Player.t) : keeps R (set_player p).
Proof. intros w. apply R_player. Qed.

Lemma keeps_print (s : string) : keeps R (print s).
Proof. intros w. apply R_stdout. Qed.

Lemma keeps_input (s : string) : keeps R (input s).
Proof.
  intros w. unfold input. destruct (stdin w) as [|l rest] eqn:E.
  - apply R_stdout.
  - eapply R_trans; [apply (R_stdin w l rest E) | apply R_stdout].
Qed.

Lemma keeps_randint (a b : Z) : keeps R (randint a b).
Proof.
  intros w. unfold randint. destruct (rand_ints w) as [|r rest]; [apply R_refl|].
  destruct ((a <=? r) && (r <=? b))%bool; [apply R_rand_ints | apply R_refl].
Qed.

Lemma keeps_random : keeps R random.
Proof.
  intros w. unfold random. destruct (rand_floats w) as [|r rest]; [apply R_refl|].
  destruct ((0 <=? r)%float && (r <? 1)%float)%bool;
    [apply R_rand_floats | apply R_refl].
Qed.

Lemma keeps_to_float (n : Z) : keeps R (to_float n).
Proof. unfold to_float. destruct (py_float_of_int n); intros w; apply R_refl. Qed.

Lemma keeps_int_of_float (f : float) : keeps R (int_of_float f).
Proof. unfold int_of_float. destruct (py_int_of_float f); intros w; apply R_refl. Qed.

(** Splits a sequence of steps into its steps and the branches of its
    tests into their cases. *)
Ltac keeps_step :=
  first
    [ apply keeps_ret | apply keeps_raise | apply keeps_get_player
    | apply keeps_get_enemy | apply keeps_set_player | apply keeps_print
    | apply keeps_input | apply keeps_randint | apply keeps_random
    | apply keeps_to_float | apply keeps_int_of_float
    | apply keeps_try
    | apply keeps_bind; [|intros ?]
    | match goal with
      | |- keeps R (if ?b then _ else _) => destruct b
      | |- keeps R (match ?x with _ => _ end) => destruct x
      end ].

Lemma keeps_type_text (s : string) : keeps R (type_text s).
Proof. apply keeps_print. Qed.

Lemma keeps_modify_player (f : Player.t -> Player.t) : keeps R (modify_player f).
Proof. unfold modify_player. repeat keeps_step. Qed.

Lemma keeps_effect_at (item : Item.t) (i : nat) : keeps R (effect_at item i).
Proof. unfold effect_at. repeat keeps_step. Qed.

Lemma keeps_int_operand (v : PyVal) : keeps R (int_operand v).
Proof. unfold int_operand. repeat keeps_step. Qed.

Lemma keeps_inventory_remove (item : Item.t) : keeps R (inventory_remove item).
Proof. unfold inventory_remove. repeat keeps_step. Qed.

Lemma keeps_Player_take_damage (damage : Z) : keeps R (Player_take_damage damage).
Proof. unfold Player_take_damage. repeat (apply keeps_type_text || keeps_step). Qed.

Lemma keeps_Player_use_item (item : Item.t) : keeps R (Player_use_item item).
Proof.
  unfold Player_use_item.
  repeat first [ apply keeps_effect_at | apply keeps_int_operand
               | apply keeps_inventory_remove | keeps_step ].
Qed.

Lemma keeps_inventory_command (action : string) : keeps R (inventory_command action).
Proof.
  unfold inventory_command.
  repeat first [ apply keeps_Player_use_item | apply keeps_inventory_remove
               | keeps_step ].
Qed.

Lemma keeps_show_inventory_loop (fuel : nat) : keeps R (show_inventory_loop fuel).
Proof.
  induction fuel as [|fuel IH]; [intros w; exact I|].
  cbn [show_inventory_loop].
  repeat first [ apply keeps_inventory_command | apply IH | keeps_step ].
Qed.

Lemma keeps_print_counts (counts : list (string * Z)) : keeps R (print_counts counts).
Proof.
  induction counts as [|[name count] rest IH]; cbn [print_counts];
    repeat first [ apply IH | keeps_step ].
Qed.

Lemma keeps_Player_show_inventory (fuel : nat) : keeps R (Player_show_inventory fuel).
Proof.
  unfold Player_show_inventory.
  repeat first [ apply keeps_print_counts | apply keeps_show_inventory_loop
               | keeps_step ].
Qed.

Lemma keeps_Enemy_attack : keeps R Enemy_attack.
Proof.
  unfold Enemy_attack.
  repeat first [ apply keeps_type_text | apply keeps_Player_take_damage
               | keeps_step ].
Qed.

Lemma keeps_begin_player_turn : keeps R begin_player_turn.
Proof.
  unfold begin_player_turn.
  repeat first [ apply keeps_modify_player | keeps_step ].
Qed.

(** The rest holds of a relation that the damage to the enemy keeps too. *)
Hypothesis R_enemy : forall w e, R w (with_enemy w e).

Lemma keeps_Enemy_take_damage (damage : Z) : keeps R (Enemy_take_damage damage).
Proof.
  unfold Enemy_take_damage.
  apply keeps_bind; [apply keeps_get_enemy | intros self].
  apply keeps_bind; [intros w; apply R_enemy | intros _]. apply keeps_type_text.
Qed.

Lemma keeps_Player_attack : keeps R Player_attack.
Proof.
  unfold Player_attack.
  repeat first [ apply keeps_type_text | apply keeps_Enemy_take_damage | keeps_step ].
Qed.

Lemma keeps_Player_special_move : keeps R Player_special_move.
Proof.
  unfold Player_special_move.
  repeat first [ apply keeps_type_text | apply keeps_Enemy_take_damage | keeps_step ].
Qed.

Lemma keeps_player_action (fuel : nat) (action : string) :
  keeps R (player_action fuel action).
Proof.
  unfold player_action.
  repeat first [ apply keeps_type_text | apply keeps_Player_attack
               | apply keeps_Player_special_move | apply keeps_modify_player
               | apply keeps_Player_show_inventory | keeps_step ].
Qed.
End Keeps.

Lemma same_enemy_refl (w : World) : same_enemy w w.
Proof. reflexivity. Qed.

Lemma same_enemy_trans (a b c : World) : same_enemy a b -> same_enemy b c -> same_enemy a c.
Proof. unfold same_enemy. congruence. Qed.

Lemma input_shrinks_refl (w : World) : input_shrinks w w.
Proof. unfold input_shrinks. lia. Qed.

Lemma input_shrinks_trans (a b c : World) :
  input_shrinks a b -> input_shrinks b c -> input_shrinks a c.
Proof. unfold input_shrinks. lia. Qed.

Lemma input_shrinks_stdin (w : World) (l : string) (rest : list string) :
  stdin w = l :: rest -> input_shrinks w (with_stdin w rest).
Proof. unfold input_shrinks. intros E. rewrite E. cbn. lia. Qed.

(** The inventory screen and the enemy's attack leave the enemy as it is. *)
Lemma show_inventory_same_enemy (fuel : nat) :
  keeps same_enemy (Player_show_inventory fuel).
Proof.
  apply keeps_Player_show_inventory;
    first [ exact same_enemy_refl | exact same_enemy_trans | intros; reflexivity ].
Qed.

Lemma Enemy_attack_same_enemy : keeps same_enemy Enemy_attack.
Proof.
  apply keeps_Enemy_attack;
    first [ exact same_enemy_refl | exact same_enemy_trans | intros; reflexivity ].
Qed.

(** No part of a turn gives lines back to the input. *)
Lemma player_action_input (fuel : nat) (action : string) :
  keeps input_shrinks (player_action fuel action).
Proof.
  apply keeps_player_action;
    first [ exact input_shrinks_refl | exact input_shrinks_trans
          | exact input_shrinks_stdin | intros; unfold input_shrinks; cbn; lia ].
Qed.

Lemma inventory_command_input (action : string) :
  keeps input_shrinks (inventory_command action).
Proof.
  apply keeps_inventory_command;
    first [ exact input_shrinks_refl | exact input_shrinks_trans
          | exact input_shrinks_stdin | intros; unfold input_shrinks; cbn; lia ].
Qed.

Lemma Enemy_attack_input : keeps input_shrinks Enemy_attack.
Proof.
  apply keeps_Enemy_attack;
    first [ exact input_shrinks_refl | exact input_shrinks_trans
          | exact input_shrinks_stdin | intros; unfold input_shrinks; cbn; lia ].
Qed.

(** A special move that fails has written a line and done nothing else. *)
Lemma Player_special_move_false (w w' : World) :
  Player_special_move w = Ok false w' ->
  w' = with_stdout w (stdout w ++ [Line "Not enough MP! (Costs 15)"]).
Proof.
  intros E. unfold Player_special_move in E.
  unfold bind at 1 2 in E. unfold get_player at 1, get_enemy at 1 in E.
  destruct (Z.ltb_spec (Player.mp (player w)) 15) as [L|G].
  - revert E. run. intros E. inversion E. reflexivity.
  - unfold bind at 1 2 in E. cbn [set_player type_text print] in E.
    apply bind_const_result in E. discriminate E.
Qed.

(** ** The loop bound is never reached *)

Lemma total_ret {A} (a : A) : total (ret a).
Proof. intros w. discriminate. Qed.

Lemma total_raise {A} (e : PyExn) : total (@raise A e).
Proof. intros w. discriminate. Qed.

Lemma total_bind {A B} (m : M A) (k : A -> M B) :
  total m -> (forall a, total (k a)) -> total (bind m k).
Proof.
  intros Hm Hk w. unfold bind. specialize (Hm w).
  destruct (m w) as [a w1| | |]; try discriminate; [apply Hk | contradiction].
Qed.

Lemma total_try {A} (body handler : M A) :
  total body -> total handler -> total (try_except_ValueError body handler).
Proof.
  intros Hb Hh w. unfold try_except_ValueError. specialize (Hb w).
  destruct (body w) as [a w1|e w1| |]; try discriminate; [|contradiction].
  destruct e; try discriminate. apply Hh.
Qed.

Lemma total_input (s : string) : total (input s).
Proof. intros w. unfold input. destruct (stdin w); discriminate. Qed.

Lemma total_randint (a b : Z) : total (randint a b).
Proof.
  intros w. unfold randint. destruct (rand_ints w) as [|r l]; [discriminate|].
  destruct ((a <=? r) && (r <=? b))%bool; discriminate.
Qed.

Lemma total_random : total random.
Proof.
  intros w. unfold random. destruct (rand_floats w) as [|r l]; [discriminate|].
  destruct ((0 <=? r)%float && (r <? 1)%float)%bool; discriminate.
Qed.

Lemma total_simple {A} (m : M A) :
  (forall w, exists a w', m w = Ok a w') -> total m.
Proof. intros H w. destruct (H w) as (a & w' & E). rewrite E. discriminate. Qed.

Ltac total_step :=
  first
    [ apply total_ret | apply total_raise | apply total_input
    | apply total_randint | apply total_random | apply total_try
    | apply total_simple; intros ?; eexists; eexists; reflexivity
    | apply total_bind; [|intros ?]
    | match goal with
      | |- total (if ?b then _ else _) => destruct b
      | |- total (match ?x with _ => _ end) => destruct x
      end ].

Lemma total_to_float (n : Z) : total (to_float n).
Proof. unfold to_float. repeat total_step. Qed.

Lemma total_int_of_float (f : float) : total (int_of_float f).
Proof. unfold int_of_float. repeat total_step. Qed.

Lemma total_effect_at (item : Item.t) (i : nat) : total (effect_at item i).
Proof. unfold effect_at. repeat total_step. Qed.

Lemma total_int_operand (v : PyVal) : total (int_operand v).
Proof. unfold int_operand. repeat total_step. Qed.

Lemma total_inventory_remove (item : Item.t) : total (inventory_remove item).
Proof. unfold inventory_remove. repeat total_step. Qed.

Lemma total_Player_take_damage (damage : Z) : total (Player_take_damage damage).
Proof. unfold Player_take_damage. repeat total_step. Qed.

Lemma total_Enemy_take_damage (damage : Z) : total (Enemy_take_damage damage).
Proof. unfold Enemy_take_damage. repeat total_step. Qed.

Lemma total_Player_use_item (item : Item.t) : total (Player_use_item item).
Proof.
  unfold Player_use_item.
  repeat first [ apply total_effect_at | apply total_int_operand
               | apply total_inventory_remove | total_step ].
Qed.

Lemma total_inventory_command (action : string) : total (inventory_command action).
Proof.
  unfold inventory_command.
  repeat first [ apply total_Player_use_item | apply total_inventory_remove
               | total_step ].
Qed.

Lemma total_print_counts (counts : list (string * Z)) : total (print_counts counts).
Proof.
  induction counts as [|[name count] rest IH]; cbn [print_counts];
    repeat first [ apply IH | total_step ].
Qed.

Lemma total_Player_attack : total Player_attack.
Proof.
  unfold Player_attack.
  repeat first [ apply total_to_float | apply total_int_of_float
               | apply total_Enemy_take_damage | total_step ].
Qed.

Lemma total_Player_special_move : total Player_special_move.
Proof.
  unfold Player_special_move.
  repeat first [ apply total_Enemy_take_damage | total_step ].
Qed.

Lemma total_Enemy_attack : total Enemy_attack.
Proof.
  unfold Enemy_attack.
  repeat first [ apply total_to_float | apply total_Player_take_damage | total_step ].
Qed.

Lemma total_begin_player_turn : total begin_player_turn.
Proof. unfold begin_player_turn. repeat total_step. Qed.

Lemma enough_total (n : nat) {A} (m : M A) : total m -> enough n m.
Proof. intros H w _. apply H. Qed.

Lemma enough_bind (n : nat) {A B} (m : M A) (k : A -> M B) :
  enough n m -> keeps input_shrinks m -> (forall a, enough n (k a)) ->
  enough n (bind m k).
Proof.
  intros Hm Km Hk w Hw. unfold bind.
  specialize (Hm w Hw). specialize (Km w).
  destruct (m w) as [a w1| | |]; try discriminate; [|contradiction].
  apply Hk. unfold input_shrinks in Km. lia.
Qed.

Lemma enough_bind_input (n : nat) {B} (s : string) (k : string -> M B) :
  (forall line, enough n (k line)) -> enough (S n) (bind (input s) k).
Proof.
  intros Hk w Hw. unfold bind, input.
  destruct (stdin w) as [|line rest] eqn:E; [discriminate|].
  apply Hk. cbn in Hw |- *. lia.
Qed.

Lemma enough_bind_consumes (n : nat) {A B} (m : M A) (k : A -> M B) :
  enough (S n) m -> consumes m -> (forall a, enough n (k a)) ->
  enough (S n) (bind m k).
Proof.
  intros Hm Cm Hk w Hw. unfold bind.
  specialize (Hm w Hw). specialize (Cm w).
  destruct (m w) as [a w1| | |]; try discriminate; [|contradiction].
  apply Hk. specialize (Cm a w1 eq_refl). lia.
Qed.

Lemma print_input (s : string) : keeps input_shrinks (print s).
Proof. intros w. unfold input_shrinks. cbn. lia. Qed.

Lemma show_inventory_loop_enough (n : nat) : enough n (show_inventory_loop n).
Proof.
  induction n as [|n IH]; [intros w Hw; lia|].
  cbn [show_inventory_loop].
  apply enough_bind; [apply enough_total; total_step | apply print_input | intros _].
  apply enough_bind_input. intros line. cbv zeta.
  destruct (strip (lower line) == "back"); [apply enough_total, total_ret|].
  apply enough_bind;
    [apply enough_total, total_inventory_command | apply inventory_command_input |].
  intros [|]; [exact IH | apply enough_total, total_ret].
Qed.

Lemma print_counts_input (counts : list (string * Z)) :
  keeps input_shrinks (print_counts counts).
Proof.
  apply keeps_print_counts;
    first [ exact input_shrinks_refl | exact input_shrinks_trans
          | intros; unfold input_shrinks; cbn; lia ].
Qed.

Lemma Player_show_inventory_enough (n : nat) : enough n (Player_show_inventory n).
Proof.
  unfold Player_show_inventory.
  apply enough_bind; [apply enough_total; total_step | apply print_input | intros _].
  apply enough_bind;
    [apply enough_total; total_step | intros w; apply input_shrinks_refl | intros self].
  destruct (Player.inventory self).
  - apply enough_total. repeat total_step.
  - apply enough_bind;
      [apply enough_total, total_print_counts | apply print_counts_input | intros _].
    apply enough_bind; [apply enough_total; total_step | apply print_input | intros _].
    apply show_inventory_loop_enough.
Qed.

Lemma player_action_enough (n : nat) (action : string) : enough n (player_action n action).
Proof.
  unfold player_action.
  destruct (action == "attack").
  { apply enough_total. repeat first [apply total_Player_attack | total_step]. }
  destruct (action == "special").
  { apply enough_total. repeat first [apply total_Player_special_move | total_step]. }
  destruct (action == "defend").
  { apply enough_total. unfold modify_player. repeat total_step. }
  destruct (action == "item").
  { apply enough_bind; [apply Player_show_inventory_enough | | intros _].
    - apply keeps_Player_show_inventory;
        first [ exact input_shrinks_refl | exact input_shrinks_trans
              | exact input_shrinks_stdin | intros; unfold input_shrinks; cbn; lia ].
    - apply enough_total. repeat total_step. }
  destruct (action == "flee"); apply enough_total; repeat total_step.
Qed.

Lemma input_consumes (s : string) : consumes (input s).
Proof.
  intros w line w' E. unfold input in E.
  destruct (stdin w) as [|l rest]; [discriminate|].
  inversion E. cbn. lia.
Qed.

Lemma player_turn_consumes (n : nat) : consumes (player_turn n).
Proof.
  induction n as [|n IH]; intros w r w' E; [discriminate|].
  cbn [player_turn] in E. unfold bind at 1 in E.
  destruct (input "> " w) as [line w1| | |] eqn:Ei; try discriminate.
  apply input_consumes in Ei.
  unfold bind in E.
  pose proof (player_action_input n (strip (lower line)) w1) as K.
  destruct (player_action n (strip (lower line)) w1) as [step w2| | |];
    try discriminate.
  unfold input_shrinks in K.
  destruct step as [[|]|r0].
  - inversion E; subst. lia.
  - apply IH in E. lia.
  - inversion E; subst. lia.
Qed.

Lemma player_turn_enough (n : nat) : enough n (player_turn n).
Proof.
  induction n as [|n IH]; [intros w Hw; lia|].
  cbn [player_turn]. apply enough_bind_input. intros line.
  apply enough_bind;
    [apply player_action_enough | apply player_action_input | intros step].
  destruct step as [[|]|r0]; [apply enough_total, total_ret | exact IH
                             | apply enough_total, total_ret].
Qed.

Lemma combat_loop_enough (n : nat) : enough n (combat_loop n).
Proof.
  induction n as [|n IH]; [intros w Hw; lia|].
  cbn [combat_loop].
  apply enough_bind;
    [apply enough_total; total_step | intros w; apply input_shrinks_refl | intros p].
  apply enough_bind;
    [apply enough_total; total_step | intros w; apply input_shrinks_refl | intros e].
  destruct (Player_is_alive p && Enemy_is_alive e)%bool;
    [|apply enough_total, total_ret].
  apply enough_bind; [apply enough_total, total_begin_player_turn | | intros _].
  { apply keeps_begin_player_turn;
      first [ exact input_shrinks_refl | exact input_shrinks_trans
            | intros; unfold input_shrinks; cbn; lia ]. }
  apply enough_bind_consumes;
    [apply player_turn_enough | apply player_turn_consumes | intros returned].
  destruct returned as [r|]; [apply enough_total, total_ret|].
  unfold after_player_turn.
  apply enough_bind;
    [apply enough_total; total_step | intros w; apply input_shrinks_refl | intros e1].
  destruct (negb (Enemy_is_alive e1)); [apply enough_total; repeat total_step|].
  apply enough_bind; [apply enough_total; total_step | apply print_input | intros _].
  apply enough_bind;
    [apply enough_total, total_Enemy_attack | apply Enemy_attack_input | intros _].
  apply enough_bind;
    [apply enough_total; total_step | intros w; apply input_shrinks_refl | intros p1].
  destruct (negb (Player_is_alive p1)); [apply enough_total, total_ret | exact IH].
Qed.

(** [start_combat] never reaches its loop bound: it returns, raises (the
    [EOFError] of the end of the input at the latest), or stops for want of
    a draw. *)
Lemma start_combat_fuel_enough (e : Enemy.t) (w : World) :
  start_combat e w <> OutOfFuel.
Proof.
  unfold start_combat, run_combat_loop. run. apply combat_loop_enough. cbn. lia.
Qed.

(** ** A larger loop bound changes nothing *)

Lemma later_refl {A} (f : M A) : later f f.
Proof. intros w _. reflexivity. Qed.

Lemma later_bind {A B} (f g : M A) (k1 k2 : A -> M B) :
  later f g -> (forall a, later (k1 a) (k2 a)) -> later (bind f k1) (bind g k2).
Proof.
  intros Hf Hk w H. unfold bind in *.
  destruct (f w) as [a w1| | |] eqn:E.
  - rewrite (Hf w), E by (rewrite E; discriminate). apply Hk. exact H.
  - rewrite (Hf w), E by (rewrite E; discriminate). reflexivity.
  - rewrite (Hf w), E by (rewrite E; discriminate). reflexivity.
  - contradiction.
Qed.

Lemma show_inventory_loop_later (n : nat) :
  forall m, (n <= m)%nat -> later (show_inventory_loop n) (show_inventory_loop m).
Proof.
  induction n as [|n IH]; intros m Hm; [intros w H; contradiction|].
  destruct m as [|m]; [lia|]. cbn [show_inventory_loop].
  apply later_bind; [apply later_refl | intros _].
  apply later_bind; [apply later_refl | intros line]. cbv zeta.
  destruct (strip (lower line) == "back"); [apply later_refl|].
  apply later_bind; [apply later_refl | intros [|]];
    [apply IH; lia | apply later_refl].
Qed.

Lemma Player_show_inventory_later (n m : nat) :
  (n <= m)%nat -> later (Player_show_inventory n) (Player_show_inventory m).
Proof.
  intros Hm. unfold Player_show_inventory.
  apply later_bind; [apply later_refl | intros _].
  apply later_bind; [apply later_refl | intros self].
  destruct (Player.inventory self); [apply later_refl|].
  apply later_bind; [apply later_refl | intros _].
  apply later_bind; [apply later_refl | intros _].
  apply show_inventory_loop_later. exact Hm.
Qed.

Lemma player_action_later (n m : nat) (action : string) :
  (n <= m)%nat -> later (player_action n action) (player_action m action).
Proof.
  intros Hm. unfold player_action.
  repeat match goal with
         | |- later (if ?b then _ else _) _ => destruct b; try apply later_refl
         end.
  apply later_bind; [apply Player_show_inventory_later; exact Hm | intros _].
  apply later_refl.
Qed.

Lemma player_turn_later (n : nat) :
  forall m, (n <= m)%nat -> later (player_turn n) (player_turn m).
Proof.
  induction n as [|n IH]; intros m Hm; [intros w H; contradiction|].
  destruct m as [|m]; [lia|]. cbn [player_turn].
  apply later_bind; [apply later_refl | intros line].
  apply later_bind; [apply player_action_later; lia | intros [[|]|r]];
    [apply later_refl | apply IH; lia | apply later_refl].
Qed.

Lemma combat_loop_later (n : nat) :
  forall m, (n <= m)%nat -> later (combat_loop n) (combat_loop m).
Proof.
  induction n as [|n IH]; intros m Hm; [intros w H; contradiction|].
  destruct m as [|m]; [lia|]. cbn [combat_loop].
  apply later_bind; [apply later_refl | intros p].
  apply later_bind; [apply later_refl | intros e].
  destruct (Player_is_alive p && Enemy_is_alive e)%bool; [|apply later_refl].
  apply later_bind; [apply later_refl | intros _].
  apply later_bind; [apply player_turn_later; lia | intros [r|]];
    [apply later_refl|].
  unfold after_player_turn.
  apply later_bind; [apply later_refl | intros e1].
  destruct (negb (Enemy_is_alive e1)); [apply later_refl|].
  apply later_bind; [apply later_refl | intros _].
  apply later_bind; [apply later_refl | intros _].
  apply later_bind; [apply later_refl | intros p1].
  destruct (negb (Player_is_alive p1)); [apply later_refl | apply IH; lia].
Qed.

(** With more fuel than there are lines, the loops are those of
    [run_player_turn] and [run_combat_loop]. *)
Lemma player_turn_any_fuel (n : nat) (w : World) :
  (List.length (stdin w) < n)%nat -> player_turn n w = run_player_turn w.
Proof.
  intros H. unfold run_player_turn.
  apply (player_turn_later (S (List.length (stdin w))) n); [lia|].
  apply player_turn_enough. lia.
Qed.

Lemma combat_loop_any_fuel (n : nat) (w : World) :
  (List.length (stdin w) < n)%nat -> combat_loop n w = run_combat_loop w.
Proof.
  intros H. unfold run_combat_loop.
  apply (combat_loop_later (S (List.length (stdin w))) n); [lia|].
  apply combat_loop_enough. lia.
Qed.

(** ** Flee *)

(** The [flee] branch of the player's turn, on a draw of [0, 1). *)
Lemma player_action_flee (fuel : nat) (w : World) (r : float) (floats : list float) :
  rand_floats w = r :: floats ->
  (0 <=? r)%float = true ->
  (r <? 1)%float = true ->
  player_action fuel "flee" w =
  if (0.33 <? r)%float
  then Ok (Returns "fled")
          (with_stdout (with_rand_floats w floats)
             (stdout w ++ [Line "You successfully fled the battle!"]))
  else Ok (Done true)
          (with_stdout (with_rand_floats w floats)
             (stdout w ++ [Line "You couldn't get away!"])).
Proof.
  intros Hf H0 H1. unfold player_action. cbn [String.eqb Ascii.eqb Bool.eqb].
  unfold random. run. rewrite Hf, H0, H1. cbn.
  destruct (0.33 <? r)%float; reflexivity.
Qed.

(** One pass through the loop of the player's turn. *)
Lemma player_turn_step (fuel : nat) (w : World) (line : string) (rest : list string) :
  stdin w = line :: rest ->
  player_turn (S fuel) w =
  bind (player_action fuel (strip (lower line)))
       (fun step =>
          match step with
          | Returns r => ret (Some r)
          | Done true => ret None
          | Done false => player_turn fuel
          end)
       (with_stdout (with_stdin w rest) (stdout w ++ [Prompt "> "])).
Proof.
  intros E. cbn [player_turn]. unfold bind at 1. unfold input. rewrite E. reflexivity.
Qed.

(** One pass through the main loop when both fighters are alive. *)
Lemma combat_loop_step (fuel : nat) (w : World) :
  Player_is_alive (player w) = true ->
  Enemy_is_alive (enemy w) = true ->
  combat_loop (S fuel) w =
  bind begin_player_turn
       (fun _ =>
          bind (player_turn (S fuel))
               (fun returned =>
                  match returned with
                  | Some r => ret r
                  | None => after_player_turn (combat_loop fuel)
                  end)) w.
Proof.
  intros Hp He. cbn [combat_loop]. unfold bind at 1 2.
  unfold get_player at 1, get_enemy at 1. rewrite Hp, He. reflexivity.
Qed.

(** The world at the first prompt of a player's turn. *)
Lemma begin_player_turn_run (w : World) :
  exists w0,
    begin_player_turn w = Ok tt w0 /\
    player w0 = Player.set_is_defending (player w) false /\
    enemy w0 = enemy w /\ rand_ints w0 = rand_ints w /\
    rand_floats w0 = rand_floats w /\ stdin w0 = stdin w.
Proof.
  unfold begin_player_turn. run. eexists. split; [reflexivity|]. cbn. tauto.
Qed.

(** The enemy's turn and what follows it do not depend on the bound of
    the loop they return to. *)
Lemma after_player_turn_any_fuel (n : nat) (w : World) :
  (List.length (stdin w) < n)%nat ->
  after_player_turn (combat_loop n) w = after_player_turn run_combat_loop w.
Proof.
  intros H. unfold after_player_turn. run.
  destruct (negb (Enemy_is_alive (enemy w))); [reflexivity|].
  match goal with |- context [Enemy_attack ?v] => pose proof (Enemy_attack_input v) as K end.
  destruct (Enemy_attack _) as [u w2| | |]; try reflexivity.
  destruct (negb (Player_is_alive (player w2))); [reflexivity|].
  apply combat_loop_any_fuel. unfold input_shrinks in K. cbn in K. lia.
Qed.

(** One pass through the main loop of [start_combat] when both fighters are
    alive. *)
Lemma run_combat_loop_step (w : World) :
  Player_is_alive (player w) = true ->
  Enemy_is_alive (enemy w) = true ->
  run_combat_loop w =
  bind begin_player_turn
       (fun _ =>
          bind run_player_turn
               (fun returned =>
                  match returned with
                  | Some r => ret r
                  | None => after_player_turn run_combat_loop
                  end)) w.
Proof.
  intros Hp He. unfold run_combat_loop at 1.
  rewrite (combat_loop_step _ w Hp He).
  destruct (begin_player_turn_run w) as [w0 (Hb & _ & _ & _ & _ & Hin)].
  unfold bind at 1 3. rewrite Hb. unfold bind.
  rewrite (player_turn_any_fuel (S (List.length (stdin w))) w0) by (rewrite Hin; lia).
  destruct (run_player_turn w0) as [returned w1| | |] eqn:Et; try reflexivity.
  destruct returned as [r|]; [reflexivity|].
  apply after_player_turn_any_fuel.
  apply player_turn_consumes in Et. rewrite <- Hin. exact Et.
Qed.

(** C8.  On the command [flee] one float of [0, 1) is drawn.  When it is
    above 0.33 the player's turn returns ['fled'] at once, and so do the main
    loop and [start_combat] when [flee] is the first command of the turn;
    player and enemy are as they were (the main loop having reset
    [is_defending] at the start of the turn).  Otherwise the turn ends with
    player, enemy and the integer draws unchanged, and the main loop goes on
    with the banner of the enemy's turn and [Enemy.attack].  The draws that
    succeed fill the part of [0, 1) above the float 0.33, whose length is
    between 0.669 and 0.671. *)
Theorem C8_flee (w : World) (line : string) (rest : list string)
    (r : float) (floats : list float) :
  stdin w = line :: rest ->
  strip (lower line) = "flee" ->
  rand_floats w = r :: floats ->
  (0 <=? r)%float = true ->
  (r <? 1)%float = true ->
  let unchanged (p : Player.t) (e : Enemy.t) (w' : World) :=
    player w' = p /\ enemy w' = e /\ rand_ints w' = rand_ints w /\
    rand_floats w' = floats /\ stdin w' = rest in
  let alive (e : Enemy.t) :=
    Player_is_alive (player w) = true /\ Enemy_is_alive e = true in
  let reset := Player.set_is_defending (player w) false in
  ((0.33 <? r)%float = true ->
   (exists w', run_player_turn w = Ok (Some "fled") w' /\
               unchanged (player w) (enemy w) w') /\
   (alive (enemy w) ->
    exists w', run_combat_loop w = Ok "fled" w' /\ unchanged reset (enemy w) w') /\
   (forall e, alive e ->
    exists w', start_combat e w = Ok "fled" w' /\ unchanged reset e w')) /\
  ((0.33 <? r)%float = false ->
   (exists w', run_player_turn w = Ok None w' /\
               unchanged (player w) (enemy w) w') /\
   (alive (enemy w) ->
    exists w1,
      unchanged reset (enemy w) w1 /\
      run_combat_loop w =
      bind Enemy_attack
           (fun _ =>
              bind get_player
                   (fun p =>
                      if negb (Player_is_alive p) then ret "defeat"
                      else run_combat_loop)) w1)) /\
  (exists n d,
      float_as_fraction 0.33 = Some (n, d) /\ 0 < d /\
      669 * d < 1000 * (d - n) < 671 * d).
Proof.
  intros Hin Hline Hf H0 H1 unchanged alive reset.
  subst unchanged alive reset. cbv beta.
  assert (Turn : forall v,
             stdin v = line :: rest -> rand_floats v = r :: floats ->
             exists w',
               run_player_turn v =
               Ok (if (0.33 <? r)%float then Some "fled" else None) w' /\
               player w' = player v /\ enemy w' = enemy v /\
               rand_ints w' = rand_ints v /\ rand_floats w' = floats /\
               stdin w' = rest).
  { intros v Hv Hvf. unfold run_player_turn.
    rewrite (player_turn_step _ v line rest Hv), Hline.
    unfold bind.
    erewrite player_action_flee; [| exact Hvf | exact H0 | exact H1].
    destruct (0.33 <? r)%float; eexists; (split; [reflexivity|]); cbn; tauto. }
  assert (Loop : forall v,
             stdin v = line :: rest -> rand_floats v = r :: floats ->
             Player_is_alive (player v) = true -> Enemy_is_alive (enemy v) = true ->
             exists w',
               run_combat_loop v =
               (if (0.33 <? r)%float then ret "fled"
                else after_player_turn run_combat_loop) w' /\
               player w' = Player.set_is_defending (player v) false /\
               enemy w' = enemy v /\ rand_ints w' = rand_ints v /\
               rand_floats w' = floats /\ stdin w' = rest).
  { intros v Hv Hvf Hp He. rewrite (run_combat_loop_step v Hp He).
    destruct (begin_player_turn_run v) as [w0 (Hb & B1 & B2 & B3 & B4 & B5)].
    unfold bind at 1. rewrite Hb. unfold bind at 1.
    destruct (Turn w0) as [w' (E & T1 & T2 & T3 & T4 & T5)]; [congruence..|].
    rewrite E. exists w'.
    split; [destruct (0.33 <? r)%float; reflexivity|].
    repeat split; congruence. }
  split; [|split];
    [intros Hc; rewrite Hc in Turn, Loop | intros Hc; rewrite Hc in Turn, Loop |].
  - split; [|split].
    + destruct (Turn w Hin Hf) as [w' (E & T)]. exists w'. tauto.
    + intros [Hp He]. destruct (Loop w Hin Hf Hp He) as [w' (E & T)].
      exists w'. split; [exact E | tauto].
    + intros e [Hp He]. unfold start_combat. run.
      destruct (Loop (with_stdout (with_enemy w e)
                   ((stdout w
                      ++ [Line (NL ++ "--- A wild " ++ Enemy.name e ++ " appears! ---")])
                      ++ [Line (Enemy.description e)])) Hin Hf Hp He) as [w' (E & T)].
      exists w'. split; [exact E | exact T].
  - split.
    + destruct (Turn w Hin Hf) as [w' (E & T)]. exists w'. tauto.
    + intros [Hp He].
      destruct (Loop w Hin Hf Hp He) as [w' (E & T1 & T2 & T3 & T4 & T5)].
      rewrite E. unfold after_player_turn.
      unfold bind at 1. unfold get_enemy at 1. rewrite T2, He. cbn [negb].
      unfold bind at 1. unfold print at 1.
      eexists. split; [|reflexivity]. cbn. tauto.
  - eexists. eexists. split; [vm_compute; reflexivity|].
    vm_compute. repeat split.
Qed.

Lemma C8_flee_witness :
  let typed (r : float) := with_stdin (with_draws (class_world "Mage") [] [r]) ["Flee "] in
  (exists w',
      start_combat (enemy test_world) (typed 0.9%float) = Ok "fled" w' /\
      Player.hp (player w') = 80 /\ Enemy.hp (enemy w') = 50) /\
  (exists w',
      run_player_turn (typed 0.2%float) = Ok None w' /\
      player w' = player (class_world "Mage") /\ enemy w' = enemy test_world).
Proof.
  intros typed. split.
  - pose proof (C8_flee (typed 0.9%float) "Flee " [] 0.9%float []
                  eq_refl eq_refl eq_refl eq_refl eq_refl) as T.
    cbv zeta in T. destruct T as [T _].
    destruct (T eq_refl) as (_ & _ & T').
    destruct (T' (enemy test_world) (conj eq_refl eq_refl))
      as [w' (E & Hp & He & _)].
    exists w'. split; [exact E|]. rewrite Hp, He. vm_compute. split; reflexivity.
  - pose proof (C8_flee (typed 0.2%float) "Flee " [] 0.2%float []
                  eq_refl eq_refl eq_refl eq_refl eq_refl) as T.
    cbv zeta in T. destruct T as [_ [T _]].
    destruct (T eq_refl) as [[w' (E & Hp & He & _)] _].
    exists w'. split; [exact E|]. rewrite Hp, He. vm_compute. split; reflexivity.
Defined.

(** ** The outcome of a combat *)

(** A pass through the loop of the player's turn that does not set
    [action_taken] leaves the enemy as it was, and the only [return] in it
    is that of ['fled'], right after the line that says so. *)
Lemma player_action_enemy (fuel : nat) (action : string) (w w' : World) (step : Step) :
  player_action fuel action w = Ok step w' ->
  step <> Done true ->
  enemy w' = enemy w /\
  (forall r, step = Returns r ->
             r = "fled" /\ ends_with w' "You successfully fled the battle!").
Proof.
  unfold player_action. intros E Hs.
  destruct (action == "attack").
  { apply bind_const_result in E. contradiction. }
  destruct (action == "special").
  { unfold bind in E. destruct (Player_special_move w) as [t w1| | |] eqn:Es;
      try discriminate.
    inversion E; subst step w'. destruct t; [contradiction|].
    apply Player_special_move_false in Es. subst w1.
    split; [reflexivity | discriminate]. }
  destruct (action == "defend").
  { revert E. unfold modify_player. run. intros E. inversion E. congruence. }
  destruct (action == "item").
  { unfold bind in E.
    pose proof (show_inventory_same_enemy fuel w) as K.
    destruct (Player_show_inventory fuel w) as [u w1| | |]; try discriminate.
    revert E. run. intros E. inversion E; subst step w'.
    split; [exact K | discriminate]. }
  destruct (action == "flee").
  { revert E. unfold random. run.
    destruct (rand_floats w) as [|r rest]; [discriminate|].
    destruct ((0 <=? r)%float && (r <? 1)%float)%bool; [|discriminate].
    destruct (0.33 <? r)%float; intros E; inversion E; subst step w'.
    - split; [reflexivity|]. intros r0 Hr. inversion Hr.
      split; [reflexivity|]. eexists. reflexivity.
    - contradiction. }
  revert E. run. intros E. inversion E; subst step w'.
  split; [reflexivity | discriminate].
Qed.

Lemma input_same_enemy (s line : string) (w w' : World) :
  input s w = Ok line w' -> enemy w' = enemy w.
Proof.
  unfold input. destruct (stdin w); intros E; inversion E. reflexivity.
Qed.

(** The player's turn makes [start_combat] return only by a flight, which
    leaves the enemy as it was. *)
Lemma player_turn_returns (fuel : nat) :
  forall (w w' : World) (r : string),
    player_turn fuel w = Ok (Some r) w' ->
    r = "fled" /\ enemy w' = enemy w /\
    ends_with w' "You successfully fled the battle!".
Proof.
  induction fuel as [|fuel IH]; intros w w' r E; [discriminate|].
  cbn [player_turn] in E. unfold bind at 1 in E.
  destruct (input "> " w) as [line w1| | |] eqn:Ei; try discriminate.
  apply input_same_enemy in Ei.
  unfold bind in E.
  destruct (player_action fuel (strip (lower line)) w1) as [step w2| | |] eqn:Ea;
    try discriminate.
  destruct step as [[|]|r0].
  - discriminate.
  - destruct (player_action_enemy _ _ _ _ _ Ea) as [K _]; [discriminate|].
    destruct (IH _ _ _ E) as (Hr & He & Hl).
    split; [exact Hr | split; [congruence | exact Hl]].
  - inversion E; subst r0 w'.
    destruct (player_action_enemy _ _ _ _ _ Ea) as [K Kr]; [discriminate|].
    destruct (Kr r eq_refl) as [Hr Hl].
    split; [exact Hr | split; [congruence | exact Hl]].
Qed.

(** What [after_player_turn] returns, by cases. *)
Lemma after_player_turn_cases (again : M string) (w : World) :
  let e := enemy w in
  let banner := with_stdout w (stdout w ++ [Line (NL ++ "--- ENEMY'S TURN ---")]) in
  (Enemy_is_alive e = false ->
   after_player_turn again w =
   Ok "victory"
      (with_stdout w (stdout w ++ [Line (NL ++ Enemy.name e ++ " has been defeated!")]))) /\
  (Enemy_is_alive e = true ->
   forall w2,
     Enemy_attack banner = Ok tt w2 ->
     (Player_is_alive (player w2) = false ->
      after_player_turn again w = Ok "defeat" w2) /\
     (Player_is_alive (player w2) = true ->
      after_player_turn again w = again w2)).
Proof.
  cbv zeta. split.
  - intros He. unfold after_player_turn. run. rewrite He. reflexivity.
  - intros He w2 Ea. unfold after_player_turn. run. rewrite He. cbn [negb].
    rewrite Ea. split; intros Hp; rewrite Hp; reflexivity.
Qed.

(** When [after_player_turn] returns, the enemy is either dead or has
    attacked. *)
Lemma after_player_turn_inv (again : M string) (w w' : World) (r : string) :
  after_player_turn again w = Ok r w' ->
  (Enemy_is_alive (enemy w) = false /\ r = "victory" /\
   w' = with_stdout w (stdout w ++ [Line (NL ++ Enemy.name (enemy w)
                                           ++ " has been defeated!")])) \/
  (Enemy_is_alive (enemy w) = true /\
   exists w2,
     Enemy_attack (with_stdout w (stdout w ++ [Line (NL ++ "--- ENEMY'S TURN ---")]))
     = Ok tt w2 /\
     enemy w2 = enemy w /\
     ((Player_is_alive (player w2) = false /\ r = "defeat" /\ w' = w2) \/
      (Player_is_alive (player w2) = true /\ again w2 = Ok r w'))).
Proof.
  intros E.
  destruct (after_player_turn_cases again w) as [V A].
  destruct (Enemy_is_alive (enemy w)) eqn:He.
  - right. split; [reflexivity|].
    pose proof (Enemy_attack_same_enemy
                  (with_stdout w (stdout w ++ [Line (NL ++ "--- ENEMY'S TURN ---")])))
      as K.
    destruct (Enemy_attack
                (with_stdout w (stdout w ++ [Line (NL ++ "--- ENEMY'S TURN ---")])))
      as [[] w2| | |] eqn:Ea;
      try (exfalso; revert E; unfold after_player_turn; run; rewrite He; cbn [negb];
           rewrite Ea; discriminate).
    exists w2. split; [reflexivity|]. split; [exact K|].
    destruct (A eq_refl w2 eq_refl) as [D C].
    destruct (Player_is_alive (player w2)) eqn:Hp.
    + right. split; [reflexivity|]. rewrite <- (C eq_refl). exact E.
    + left. rewrite (D eq_refl) in E. inversion E. auto.
  - left. rewrite (V eq_refl) in E. inversion E. auto.
Qed.

(** What the main loop can return: ['victory'] with the enemy dead, right
    after the line of the victory; ['defeat'] with the player dead, or
    without a pass through the loop when the enemy was dead on entry;
    ['fled'] with the enemy alive, right after the line of the flight. *)
Lemma combat_loop_outcome (fuel : nat) :
  forall (w w' : World) (r : string),
    combat_loop fuel w = Ok r w' ->
    (r = "victory" /\ Enemy_is_alive (enemy w') = false /\
     ends_with w' (NL ++ Enemy.name (enemy w') ++ " has been defeated!")) \/
    (r = "defeat" /\
     (Player_is_alive (player w') = false \/
      (Enemy_is_alive (enemy w) = false /\ w' = w))) \/
    (r = "fled" /\ Enemy_is_alive (enemy w') = true /\
     ends_with w' "You successfully fled the battle!").
Proof.
  induction fuel as [|fuel IH]; intros w w' r E; [discriminate|].
  destruct (Player_is_alive (player w)) eqn:Hp;
    [destruct (Enemy_is_alive (enemy w)) eqn:He|].
  - rewrite (combat_loop_step fuel w Hp He) in E.
    destruct (begin_player_turn_run w) as [w0 (Hb & _ & B2 & _)].
    unfold bind at 1 in E. rewrite Hb in E. unfold bind at 1 in E.
    destruct (player_turn (S fuel) w0) as [returned w1| | |] eqn:Et; try discriminate.
    destruct returned as [r0|].
    + inversion E; subst r0 w1.
      destruct (player_turn_returns _ _ _ _ Et) as (Hr & K & Hl).
      right; right. split; [exact Hr | split; [congruence | exact Hl]].
    + apply after_player_turn_inv in E.
      destruct E as [(He1 & Hr & Hw)|(He1 & w2 & Ea & K & [(Hp2 & Hr & Hw)|(Hp2 & E)])].
      * left. subst r w'. split; [reflexivity|]. split; [exact He1|].
        eexists. reflexivity.
      * right; left. subst r w'. split; [reflexivity | left; exact Hp2].
      * destruct (IH _ _ _ E) as [H|[(Hr & [H|(H & _)])|H]].
        -- left. exact H.
        -- right; left. split; [exact Hr | left; exact H].
        -- congruence.
        -- right; right. exact H.
  - cbn [combat_loop] in E. revert E. run. rewrite He, andb_false_r.
    intros E. inversion E; subst r w'.
    right; left. split; [reflexivity | right; split; reflexivity].
  - cbn [combat_loop] in E. revert E. run. rewrite Hp. cbn [andb].
    intros E. inversion E; subst r w'.
    right; left. split; [reflexivity | left; exact Hp].
Qed.

(** C1.  Whenever [start_combat] returns, it returns one of ['victory'],
    ['defeat'] and ['fled'], and when the enemy it is called with is alive:
    ['victory'] with the enemy dead and the line of the victory written
    last, or ['defeat'] with the player dead, or ['fled'] with the enemy
    alive and the line of the flight written last; the loop bound of the
    model never cuts a run short.  In a pass of the main loop that starts
    with both alive and in which the player's turn ends with [action_taken]
    set: if the enemy is then dead the loop returns ['victory'] having only
    written the line of the victory, so that the enemy has not acted;
    otherwise the enemy attacks, and the loop returns ['defeat'] if the
    player is then dead and else goes on as the loop from that world, at the
    player's turn. *)
Theorem C1_start_combat_outcome :
  (forall (e : Enemy.t) (w w' : World) (r : string),
      start_combat e w = Ok r w' ->
      (r = "victory" \/ r = "defeat" \/ r = "fled") /\
      (Enemy_is_alive e = true ->
       (r = "victory" /\ Enemy_is_alive (enemy w') = false /\
        ends_with w' (NL ++ Enemy.name (enemy w') ++ " has been defeated!")) \/
       (r = "defeat" /\ Player_is_alive (player w') = false) \/
       (r = "fled" /\ Enemy_is_alive (enemy w') = true /\
        ends_with w' "You successfully fled the battle!"))) /\
  (forall (e : Enemy.t) (w : World), start_combat e w <> OutOfFuel) /\
  (forall (w w0 w1 : World),
      Player_is_alive (player w) = true ->
      Enemy_is_alive (enemy w) = true ->
      begin_player_turn w = Ok tt w0 ->
      run_player_turn w0 = Ok None w1 ->
      (Enemy_is_alive (enemy w1) = false ->
       run_combat_loop w =
       Ok "victory"
          (with_stdout w1
             (stdout w1 ++ [Line (NL ++ Enemy.name (enemy w1) ++ " has been defeated!")]))) /\
      (Enemy_is_alive (enemy w1) = true ->
       forall w2,
         Enemy_attack
           (with_stdout w1 (stdout w1 ++ [Line (NL ++ "--- ENEMY'S TURN ---")]))
         = Ok tt w2 ->
         (Player_is_alive (player w2) = false -> run_combat_loop w = Ok "defeat" w2) /\
         (Player_is_alive (player w2) = true -> run_combat_loop w = run_combat_loop w2))).
Proof.
  split; [|split].
  - intros e w w' r E. unfold start_combat in E. revert E. run. intros E.
    apply combat_loop_outcome in E. cbn [enemy with_stdout with_enemy] in E.
    split.
    + destruct E as [(H & _)|[(H & _)|(H & _)]]; auto.
    + intros He. destruct E as [H|[(Hr & [H|(H & _)])|H]].
      * left. exact H.
      * right; left. split; [exact Hr | exact H].
      * congruence.
      * right; right. exact H.
  - exact start_combat_fuel_enough.
  - intros w w0 w1 Hp He Hb Ht.
    assert (Eq : run_combat_loop w = after_player_turn run_combat_loop w1).
    { rewrite (run_combat_loop_step w Hp He).
      unfold bind at 1. rewrite Hb. unfold bind at 1. rewrite Ht. reflexivity. }
    rewrite Eq. apply after_player_turn_cases.
Qed.

(** Three runs against the Test Golem of 50 health and strength 10: a Mage
    who casts twice (rolls 10 and 15, the golem rolling 3 in between) wins; a
    Mage with 5 health who defends takes [(10 + 4) // 2 = 7] and loses; a Mage
    who flees on the draw 0.9 gets away. *)
Lemma C1_start_combat_outcome_witness :
  let mage := class_world "Mage" in
  let golem := enemy test_world in
  let wins := with_stdin (with_draws mage [10; 3; 15] [0.9%float]) ["special"; "special"] in
  let loses :=
    with_stdin (with_draws (with_player mage (Player.set_hp (player mage) 5)) [4] [])
               ["defend"] in
  let flees := with_stdin (with_draws mage [] [0.9%float]) ["flee"] in
  (exists w', start_combat golem wins = Ok "victory" w' /\
              Enemy_is_alive (enemy w') = false) /\
  (exists w', start_combat golem loses = Ok "defeat" w' /\
              Player_is_alive (player w') = false) /\
  (exists w', start_combat golem flees = Ok "fled" w' /\
              Enemy_is_alive (enemy w') = true).
Proof.
  intros mage golem wins loses flees.
  destruct C1_start_combat_outcome as [Outcome _].
  repeat split.
  - assert (E : exists w', start_combat golem wins = Ok "victory" w')
      by (eexists; vm_compute; reflexivity).
    destruct E as [w' E]. exists w'. split; [exact E|].
    destruct (Outcome golem wins w' "victory" E) as [_ T].
    destruct (T eq_refl) as [(_ & H & _)|[[H _]|[H _]]];
      [exact H | discriminate H | discriminate H].
  - assert (E : exists w', start_combat golem loses = Ok "defeat" w')
      by (eexists; vm_compute; reflexivity).
    destruct E as [w' E]. exists w'. split; [exact E|].
    destruct (Outcome golem loses w' "defeat" E) as [_ T].
    destruct (T eq_refl) as [[H _]|[[_ H]|[H _]]];
      [discriminate H | exact H | discriminate H].
  - assert (E : exists w', start_combat golem flees = Ok "fled" w')
      by (eexists; vm_compute; reflexivity).
    destruct E as [w' E]. exists w'. split; [exact E|].
    destruct (Outcome golem flees w' "fled" E) as [_ T].
    destruct (T eq_refl) as [[H _]|[[H _]|(_ & H & _)]];
      [discriminate H | discriminate H | exact H].
Defined.

(** Outside the contract of [start_combat], with an enemy that is already
    dead, the loop is not entered and ['defeat'] is returned whatever the
    health of the player. *)
Lemma start_combat_dead_enemy (e : Enemy.t) (w : World) :
  Enemy_is_alive e = false ->
  exists w', start_combat e w = Ok "defeat" w' /\ player w' = player w.
Proof.
  intros He. unfold start_combat, run_combat_loop. run.
  cbn [combat_loop]. run. rewrite He, andb_false_r.
  eexists. split; reflexivity.
Qed.

(** * Further properties *)

(** ** What a combat keeps *)

Lemma guards_ret (I : World -> Prop) (X : PyExn -> World -> Prop) {A} (a : A) :
  guards I X (ret a).
Proof. intros w H. exact H. Qed.

Lemma guards_bind (I : World -> Prop) (X : PyExn -> World -> Prop) {A B}
    (m : M A) (k : A -> M B) :
  guards I X m -> (forall a, guards I X (k a)) -> guards I X (bind m k).
Proof.
  intros Hm Hk w H. unfold bind. specialize (Hm w H).
  destruct (m w) as [a w1|e w1|w1|]; cbn in *; auto.
  apply Hk. exact Hm.
Qed.

Lemma guards_try (I : World -> Prop) (X : PyExn -> World -> Prop) {A}
    (body handler : M A) :
  guards I (fun e w => e = ValueError \/ X e w) body ->
  guards I X handler ->
  guards I X (try_except_ValueError body handler).
Proof.
  intros Hb Hh w H. unfold try_except_ValueError. specialize (Hb w H).
  destruct (body w) as [a w1|e w1|w1|]; cbn in *; auto.
  destruct Hb as [Hi Hx].
  destruct e; try (split; [exact Hi | destruct Hx as [Hx|Hx]; [discriminate | exact Hx]]).
  apply Hh. exact Hi.
Qed.

Lemma guards_more (I : World -> Prop) (X Y : PyExn -> World -> Prop) {A} (m : M A) :
  (forall e w, X e w -> Y e w) -> guards I X m -> guards I Y m.
Proof.
  intros HXY Hm w H. specialize (Hm w H).
  destruct (m w); cbn in *; intuition.
Qed.

Lemma item_exn_eof (w0 w : World) : stdin w = [] -> item_exn w0 EOFError w.
Proof. intros E. left. split; [reflexivity | exact E]. Qed.

Lemma combat_exn_eof (w0 w : World) : stdin w = [] -> combat_exn w0 EOFError w.
Proof. intros E. left. split; [reflexivity | exact E]. Qed.

Lemma item_exn_combat_exn (w0 : World) (e : PyExn) (w : World) :
  item_exn w0 e w -> combat_exn w0 e w.
Proof.
  intros [He|Hn]; [left; exact He | right; intros [Hh _]; exact (Hn Hh)].
Qed.

Ltac inv_goal :=
  unfold combat_inv, combat_frame, healthy in *;
  cbn [player enemy next_id rand_ints rand_floats stdin stdout
       with_player with_enemy with_next_id with_rand_ints with_rand_floats
       with_stdin with_stdout
       Player.name Player.char_class Player.stats Player.max_hp Player.hp
       Player.max_mp Player.mp Player.inventory Player.is_defending
       Player.set_hp Player.set_mp Player.set_inventory Player.set_is_defending
       Enemy.name Enemy.max_hp Enemy.hp Enemy.strength Enemy.agility Enemy.magic
       Enemy.description Enemy.set_hp] in *;
  intuition (try lia; try congruence; eauto).

Lemma remove_first_In (item : Item.t) (l : list Item.t) :
  In item l -> exists l', remove_first (Item.id item) l = Some l'.
Proof.
  induction l as [|x l IH]; intros H; [destruct H|]. cbn.
  destruct (Nat.eqb (Item.id x) (Item.id item)) eqn:E; [eexists; reflexivity|].
  destruct H as [H|H].
  - subst x. rewrite Nat.eqb_refl in E. discriminate.
  - destruct (IH H) as [l' E']. rewrite E'. eexists. reflexivity.
Qed.

Lemma remove_first_incl (i : nat) (l l' : list Item.t) :
  remove_first i l = Some l' -> incl l' l.
Proof.
  revert l'. induction l as [|x l IH]; intros l' H; [discriminate|]. cbn in H.
  destruct (Nat.eqb (Item.id x) i).
  - inversion H; subst. apply incl_tl, incl_refl.
  - destruct (remove_first i l) as [l1|]; [|discriminate].
    inversion H; subst. apply incl_cons; [left; reflexivity|].
    apply incl_tl. apply IH. reflexivity.
Qed.

Lemma Forall_incl {A} (P : A -> Prop) (l l' : list A) :
  incl l' l -> Forall P l -> Forall P l'.
Proof.
  intros Hi Hf. rewrite Forall_forall in *. intros x Hx. apply Hf, Hi, Hx.
Qed.

Section Leaves.
Variable w0 : World.
Variable X : PyExn -> World -> Prop.
Hypothesis X_eof : forall w, stdin w = [] -> X EOFError w.

Lemma guards_print (s : string) : guards (combat_inv w0) X (print s).
Proof. intros w H. cbn. inv_goal. Qed.

Lemma guards_get_player : guards (combat_inv w0) X get_player.
Proof. intros w H. exact H. Qed.

Lemma guards_get_enemy : guards (combat_inv w0) X get_enemy.
Proof. intros w H. exact H. Qed.

Lemma guards_input (s : string) : guards (combat_inv w0) X (input s).
Proof.
  intros w H. unfold input. destruct (stdin w) eqn:E; cbn.
  - split; [inv_goal | apply X_eof; exact E].
  - inv_goal.
Qed.

Lemma guards_randint (a b : Z) : guards (combat_inv w0) X (randint a b).
Proof.
  intros w H. unfold randint. destruct (rand_ints w) as [|r l]; [exact H|].
  destruct ((a <=? r) && (r <=? b))%bool; cbn; inv_goal.
Qed.

Lemma guards_random : guards (combat_inv w0) X random.
Proof.
  intros w H. unfold random. destruct (rand_floats w) as [|r l]; [exact H|].
  destruct ((0 <=? r)%float && (r <? 1)%float)%bool; cbn; inv_goal.
Qed.

Lemma guards_Player_take_damage (damage : Z) :
  (healthy w0 -> 0 <= damage) -> guards (combat_inv w0) X (Player_take_damage damage).
Proof.
  intros Hd w H. unfold Player_take_damage. run. cbn.
  destruct (Z.ltb_spec (Player.hp (player w) - damage) 0); inv_goal.
Qed.

Lemma guards_Enemy_take_damage (damage : Z) :
  (healthy w0 -> 0 <= damage) -> guards (combat_inv w0) X (Enemy_take_damage damage).
Proof.
  intros Hd w H. unfold Enemy_take_damage. run. cbn.
  destruct (Z.ltb_spec (Enemy.hp (enemy w) - damage) 0); inv_goal.
Qed.
End Leaves.

Section Combat.
Variable w0 : World.

Lemma guards_Player_attack : guards (combat_inv w0) (combat_exn w0) Player_attack.
Proof.
  intros w H. unfold Player_attack. run.
  assert (Hs : Player.stats (player w) = Player.stats (player w0)) by inv_goal.
  destruct (py_float_of_int (Stats.agility (Player.stats (player w)))) as [a|] eqn:Ha.
  2:{ cbn. split; [inv_goal|]. right. intros [_ [Hc _]]. rewrite Hs in Ha. contradiction. }
  unfold randint. cbn [rand_ints with_stdout].
  destruct (rand_ints w) as [|roll ints]; [cbn; inv_goal|].
  destruct (Z.leb_spec (-2) roll); [|cbn; inv_goal].
  destruct (Z.leb_spec roll 5); [|cbn; inv_goal].
  cbn [andb]. unfold random. cbn [rand_floats with_stdout with_rand_ints].
  destruct (rand_floats w) as [|r floats]; [cbn; inv_goal|].
  destruct ((0 <=? r)%float && (r <? 1)%float)%bool; [|cbn; inv_goal].
  destruct (r <? a * 0.015)%float.
  - assert (Hk : convertible (Player.stats (player w0)) ->
                  exists k, critical_damage
                              (Stats.strength (Player.stats (player w)) + roll) = inr k).
    { intros Hc. rewrite Hs. apply Hc. lia. }
    unfold critical_damage in Hk.
    destruct (py_float_of_int (Stats.strength (Player.stats (player w)) + roll))
      as [b|] eqn:Hb.
    2:{ cbn. split; [inv_goal|]. right. intros [_ Hc]. destruct (Hk Hc). discriminate. }
    destruct (py_int_of_float (b * 1.8)) as [e|k] eqn:Hi.
    { cbn. split; [inv_goal|]. right. intros [_ Hc]. destruct (Hk Hc). discriminate. }
    apply guards_Enemy_take_damage.
    + intros _. destruct (Z.ltb_spec k 1); lia.
    + inv_goal.
  - apply guards_Enemy_take_damage.
    + intros _.
      destruct (Z.ltb_spec (Stats.strength (Player.stats (player w)) + roll) 1); lia.
    + inv_goal.
Qed.

Lemma guards_Player_special_move :
  guards (combat_inv w0) (combat_exn w0) Player_special_move.
Proof.
  intros w H. unfold Player_special_move. run.
  destruct (Z.ltb_spec (Player.mp (player w)) 15); [cbn; inv_goal|].
  assert (H' : combat_inv w0
                 (with_stdout
                    (with_player w (Player.set_mp (player w) (Player.mp (player w) - 15)))
                    (stdout w ++ [Line (Player.name (player w) ++ " uses a special move! ("
                                        ++ str (Player.mp (player w) - 15) ++ "/"
                                        ++ str (Player.max_mp (player w)) ++ " MP)")])))
    by inv_goal.
  revert H'. generalize (with_stdout
                    (with_player w (Player.set_mp (player w) (Player.mp (player w) - 15)))
                    (stdout w ++ [Line (Player.name (player w) ++ " uses a special move! ("
                                        ++ str (Player.mp (player w) - 15) ++ "/"
                                        ++ str (Player.max_mp (player w)) ++ " MP)")])).
  intros w1 H1.
  assert (Hst : healthy w0 -> 0 <= Stats.strength (Player.stats (player w)) /\
                0 <= Stats.magic (Player.stats (player w)) /\
                0 <= Stats.agility (Player.stats (player w))) by inv_goal.
  destruct (Player.char_class (player w) == "Guardian");
    [|destruct (Player.char_class (player w) == "Mage");
      [|destruct (Player.char_class (player w) == "Shadow")]];
    unfold randint; cbn [rand_ints];
    try solve [cbn; exact H1];
    (destruct (rand_ints w1) as [|roll ints] eqn:Hr; [cbn; exact H1|];
         match goal with
         | |- context [((?lo <=? roll) && (roll <=? ?hi))%bool] =>
             destruct (Z.leb_spec lo roll); [|cbn; exact H1];
             destruct (Z.leb_spec roll hi); [|cbn; exact H1]
         end;
         cbn [andb];
         match goal with
         | |- context [Enemy_take_damage ?d ?v] =>
             assert (Hv : combat_inv w0 v) by inv_goal;
             pose proof (guards_Enemy_take_damage w0 (combat_exn w0) d
                           ltac:(intros Hh; specialize (Hst Hh); lia) v Hv) as G;
             destruct (Enemy_take_damage d v); cbn in *; exact G
         end).
Qed.

Lemma guards_Enemy_attack : guards (combat_inv w0) (combat_exn w0) Enemy_attack.
Proof.
  intros w H. unfold Enemy_attack. run.
  assert (Hs : Player.stats (player w) = Player.stats (player w0)) by inv_goal.
  assert (He : healthy w0 -> 0 <= Enemy.strength (enemy w)) by inv_goal.
  destruct (Player.is_defending (player w)).
  - unfold randint. cbn [rand_ints with_stdout].
    destruct (rand_ints w) as [|roll ints]; [cbn; inv_goal|].
    destruct (Z.leb_spec 1 roll); [|cbn; inv_goal].
    destruct (Z.leb_spec roll 4); [|cbn; inv_goal].
    cbn [andb].
    apply guards_Player_take_damage.
    + intros Hh. specialize (He Hh). apply Z.div_pos; lia.
    + inv_goal.
  - destruct (py_float_of_int (Stats.agility (Player.stats (player w)))) as [a|] eqn:Ha.
    2:{ cbn. split; [inv_goal|]. right. intros [_ [Hc _]]. rewrite Hs in Ha. contradiction. }
    unfold random. cbn [rand_floats with_stdout].
    destruct (rand_floats w) as [|r floats]; [cbn; inv_goal|].
    destruct ((0 <=? r)%float && (r <? 1)%float)%bool; [|cbn; inv_goal].
    destruct (r <? a * 0.01)%float; [cbn; inv_goal|].
    unfold randint. cbn [rand_ints with_stdout with_rand_floats].
    destruct (rand_ints w) as [|roll ints]; [cbn; inv_goal|].
    destruct (Z.leb_spec 1 roll); [|cbn; inv_goal].
    destruct (Z.leb_spec roll 6); [|cbn; inv_goal].
    cbn [andb].
    apply guards_Player_take_damage.
    + intros Hh. specialize (He Hh). lia.
    + inv_goal.
Qed.

Lemma guards_inventory_remove (item : Item.t) (w : World) :
  combat_inv w0 w -> In item (Player.inventory (player w)) ->
  exists l', inventory_remove item w = Ok tt (with_player w (Player.set_inventory (player w) l'))
             /\ incl l' (Player.inventory (player w)).
Proof.
  intros H Hin. unfold inventory_remove. run.
  destruct (remove_first_In item _ Hin) as [l' E]. rewrite E.
  exists l'. split; [reflexivity|]. eapply remove_first_incl; eassumption.
Qed.

Lemma inv_inventory (w : World) (l' : list Item.t) :
  combat_inv w0 w -> incl l' (Player.inventory (player w)) ->
  combat_inv w0 (with_player w (Player.set_inventory (player w) l')).
Proof.
  intros H Hi. unfold combat_inv, combat_frame, healthy in *.
  cbn. destruct H as [F Hh]. split.
  - intuition. eapply incl_tran; eassumption.
  - intros H0. specialize (Hh H0). intuition. eapply Forall_incl; eassumption.
Qed.

Lemma guards_Player_use_item (item : Item.t) (w : World) :
  combat_inv w0 w -> In item (Player.inventory (player w)) ->
  guarded (combat_inv w0) (item_exn w0) (Player_use_item item w).
Proof.
  intros H Hin.
  assert (Hok : healthy w0 -> item_ok item).
  { intros Hh. destruct H as [_ H]. specialize (H Hh).
    unfold healthy in H. decompose [and] H. 
    match goal with F : Forall item_ok _ |- _ => rewrite Forall_forall in F; apply F, Hin end. }
  unfold item_ok in Hok.
  assert (Use : forall (set : Player.t -> Z -> Player.t) (v : Z) out1 out2,
             (forall p, Player.inventory (set p v) = Player.inventory p) ->
             combat_inv w0 (with_player w (set (player w) v)) ->
             guarded (combat_inv w0) (item_exn w0)
               (inventory_remove item
                  (with_stdout
                     (with_stdout (with_player w (set (player w) v)) out1) out2))).
  { intros set v out1 out2 Hset Hv.
    destruct (guards_inventory_remove item
                (with_stdout (with_stdout (with_player w (set (player w) v)) out1) out2))
      as [l' [E Hi]].
    - inv_goal.
    - cbn. rewrite Hset. exact Hin.
    - rewrite E. cbn [guarded]. apply inv_inventory; [inv_goal | exact Hi]. }
  unfold Player_use_item.
  destruct (Item.item_type item == "potion") eqn:Hp; cbn [negb]; [|cbn; inv_goal].
  apply String.eqb_eq in Hp. specialize (fun Hh => Hok Hh Hp).
  assert (Bad : forall e, (healthy w0 -> False) -> combat_inv w0 w /\ item_exn w0 e w).
  { intros e Hn. split; [exact H | right; exact Hn]. }
  unfold effect_at, bind at 1.
  destruct (Item.effect item) as [[|v0 t]|] eqn:He; cbn [nth_error];
    [apply Bad; intros Hh; destruct (Hok Hh) as (? & ? & ? & ? & _); discriminate
    | | apply Bad; intros Hh; destruct (Hok Hh) as (? & ? & ? & ? & _); discriminate].
  cbn [ret].
  destruct (val_eq_str v0 "heal").
  - run. destruct (Player.hp (player w) =? Player.max_hp (player w)) eqn:Hfull;
      [cbn; inv_goal|].
    destruct t as [|v1 rest]; cbn [nth_error];
      [apply Bad; intros Hh; destruct (Hok Hh) as (? & ? & ? & ? & _); discriminate|].
    destruct v1 as [s1|n]; cbn [int_operand raise ret];
      [apply Bad; intros Hh; destruct (Hok Hh) as (? & ? & ? & ? & _); discriminate|].
    cbv beta iota. apply (Use Player.set_hp); [reflexivity|].
    assert (Hn : healthy w0 -> 0 <= n).
    { intros Hh. destruct (Hok Hh) as (? & ? & ? & E & Hm). inversion E; subst. exact Hm. }
    destruct (Z.ltb_spec (Player.max_hp (player w)) (Player.hp (player w) + n)); inv_goal.
  - destruct (val_eq_str v0 "mana"); [|cbn; inv_goal].
    run. destruct (Player.mp (player w) =? Player.max_mp (player w)) eqn:Hfull;
      [cbn; inv_goal|].
    destruct t as [|v1 rest]; cbn [nth_error];
      [apply Bad; intros Hh; destruct (Hok Hh) as (? & ? & ? & ? & _); discriminate|].
    destruct v1 as [s1|n]; cbn [int_operand raise ret];
      [apply Bad; intros Hh; destruct (Hok Hh) as (? & ? & ? & ? & _); discriminate|].
    cbv beta iota. apply (Use Player.set_mp); [reflexivity|].
    assert (Hn : healthy w0 -> 0 <= n).
    { intros Hh. destruct (Hok Hh) as (? & ? & ? & E & Hm). inversion E; subst. exact Hm. }
    destruct (Z.ltb_spec (Player.max_mp (player w)) (Player.mp (player w) + n)); inv_goal.
Qed.

Lemma guards_inventory_command (action : string) :
  guards (combat_inv w0) (item_exn w0) (inventory_command action).
Proof.
  intros w H. unfold inventory_command, try_except_ValueError.
  destruct (split_space_once action) as [|command [|item_name [|x t]]];
    try solve [run; cbn; inv_goal].
  cbv beta iota. unfold bind at 1. unfold get_player at 1.
  destruct (find (fun item => lower (Item.name item) == item_name)
                 (Player.inventory (player w))) as [item|] eqn:Hf;
    [|run; cbn; inv_goal].
  apply find_some in Hf. destruct Hf as [Hin _].
  destruct (command == "use").
  { pose proof (guards_Player_use_item item w H Hin) as G.
    unfold bind. destruct (Player_use_item item w) as [u w1|e w1|w1|];
      cbn [guarded] in G; try exact G.
    destruct G as [G1 G2].
    destruct e; try (split; assumption).
    run. cbn. inv_goal. }
  destruct (command == "view"); [run; cbn; inv_goal|].
  destruct (command == "discard"); [|run; cbn; inv_goal].
  destruct (guards_inventory_remove item w H Hin) as [l' [E Hi]].
  unfold bind at 1. rewrite E. run. cbn.
  pose proof (inv_inventory w l' H Hi). inv_goal.
Qed.

Lemma guards_show_inventory_loop (fuel : nat) :
  guards (combat_inv w0) (item_exn w0) (show_inventory_loop fuel).
Proof.
  induction fuel as [|fuel IH]; [intros w H; exact I|].
  cbn [show_inventory_loop].
  apply guards_bind; [apply guards_print | intros _].
  apply guards_bind; [apply guards_input, item_exn_eof | intros line]. cbv zeta.
  destruct (strip (lower line) == "back"); [apply guards_ret|].
  apply guards_bind; [apply guards_inventory_command | intros [|]];
    [exact IH | apply guards_ret].
Qed.

Lemma guards_print_counts (counts : list (string * Z)) :
  guards (combat_inv w0) (item_exn w0) (print_counts counts).
Proof.
  induction counts as [|[name count] rest IH]; cbn [print_counts];
    [apply guards_ret|].
  apply guards_bind; [apply guards_print | intros _; exact IH].
Qed.

Lemma guards_Player_show_inventory (fuel : nat) :
  guards (combat_inv w0) (item_exn w0) (Player_show_inventory fuel).
Proof.
  unfold Player_show_inventory.
  apply guards_bind; [apply guards_print | intros _].
  apply guards_bind; [apply guards_get_player | intros self].
  destruct (Player.inventory self).
  - apply guards_bind; [apply guards_print | intros _; apply guards_print].
  - apply guards_bind; [apply guards_print_counts | intros _].
    apply guards_bind; [apply guards_print | intros _].
    apply guards_show_inventory_loop.
Qed.

Lemma guards_set_is_defending (b : bool) :
  guards (combat_inv w0) (combat_exn w0)
         (modify_player (fun p => Player.set_is_defending p b)).
Proof. intros w H. unfold modify_player. run. cbn. inv_goal. Qed.

Lemma guards_player_action (fuel : nat) (action : string) :
  guards (combat_inv w0) (combat_exn w0) (player_action fuel action).
Proof.
  unfold player_action.
  destruct (action == "attack").
  { apply guards_bind; [apply guards_Player_attack | intros _; apply guards_ret]. }
  destruct (action == "special").
  { apply guards_bind; [apply guards_Player_special_move | intros b; apply guards_ret]. }
  destruct (action == "defend").
  { apply guards_bind; [apply guards_set_is_defending | intros _].
    apply guards_bind; [apply guards_get_player | intros p].
    apply guards_bind; [apply guards_print | intros _; apply guards_ret]. }
  destruct (action == "item").
  { apply guards_bind; [|intros _].
    { apply (guards_more _ (item_exn w0)); [|apply guards_Player_show_inventory].
      apply item_exn_combat_exn. }
    apply guards_bind; [apply guards_print | intros _; apply guards_ret]. }
  destruct (action == "flee").
  { apply guards_bind; [apply guards_random | intros r].
    destruct (0.33 <? r)%float;
      (apply guards_bind; [apply guards_print | intros _; apply guards_ret]). }
  apply guards_bind; [apply guards_print | intros _; apply guards_ret].
Qed.

Lemma guards_player_turn (fuel : nat) :
  guards (combat_inv w0) (combat_exn w0) (player_turn fuel).
Proof.
  induction fuel as [|fuel IH]; [intros w H; exact I|].
  cbn [player_turn].
  apply guards_bind; [apply guards_input, combat_exn_eof | intros line].
  apply guards_bind; [apply guards_player_action | intros [[|]|r]];
    [apply guards_ret | exact IH | apply guards_ret].
Qed.

Lemma guards_begin_player_turn :
  guards (combat_inv w0) (combat_exn w0) begin_player_turn.
Proof.
  unfold begin_player_turn.
  apply guards_bind; [apply guards_set_is_defending | intros _].
  apply guards_bind; [apply guards_print | intros _].
  apply guards_bind; [apply guards_get_player | intros p].
  apply guards_bind; [apply guards_get_enemy | intros e].
  apply guards_bind; [apply guards_print | intros _].
  apply guards_bind; [apply guards_print | intros _; apply guards_print].
Qed.

Lemma guards_after_player_turn (again : M string) :
  guards (combat_inv w0) (combat_exn w0) again ->
  guards (combat_inv w0) (combat_exn w0) (after_player_turn again).
Proof.
  intros Ha. unfold after_player_turn.
  apply guards_bind; [apply guards_get_enemy | intros e].
  destruct (negb (Enemy_is_alive e)).
  - apply guards_bind; [apply guards_print | intros _; apply guards_ret].
  - apply guards_bind; [apply guards_print | intros _].
    apply guards_bind; [apply guards_Enemy_attack | intros _].
    apply guards_bind; [apply guards_get_player | intros p].
    destruct (negb (Player_is_alive p)); [apply guards_ret | exact Ha].
Qed.

Lemma guards_combat_loop (fuel : nat) :
  guards (combat_inv w0) (combat_exn w0) (combat_loop fuel).
Proof.
  induction fuel as [|fuel IH]; [intros w H; exact I|].
  cbn [combat_loop].
  apply guards_bind; [apply guards_get_player | intros p].
  apply guards_bind; [apply guards_get_enemy | intros e].
  destruct (Player_is_alive p && Enemy_is_alive e)%bool; [|apply guards_ret].
  apply guards_bind; [apply guards_begin_player_turn | intros _].
  apply guards_bind; [apply guards_player_turn | intros [r|]];
    [apply guards_ret | apply guards_after_player_turn; exact IH].
Qed.
End Combat.

Lemma combat_inv_refl (w : World) : combat_inv w w.
Proof.
  unfold combat_inv, combat_frame.
  split; [|intros H; exact H].
  repeat split; try reflexivity; [apply incl_refl | destruct (enemy w); reflexivity].
Qed.

Lemma guards_start_combat (e : Enemy.t) (w : World) :
  guarded (combat_inv (with_enemy w e)) (combat_exn (with_enemy w e)) (start_combat e w).
Proof.
  unfold start_combat. unfold bind at 1. unfold set_enemy.
  assert (G : guards (combat_inv (with_enemy w e)) (combat_exn (with_enemy w e))
                (type_text (NL ++ "--- A wild " ++ Enemy.name e ++ " appears! ---") ;;
                 type_text (Enemy.description e) ;; run_combat_loop)).
  { apply guards_bind; [apply guards_print | intros _].
    apply guards_bind; [apply guards_print | intros _].
    intros v Hv. apply guards_combat_loop. exact Hv. }
  apply G. apply combat_inv_refl.
Qed.

(** Attributes up to some ten thousand go through the float operations. *)
Lemma small_stats_convertible (s : Stats.t) :
  0 <= Stats.agility s <= 10000 ->
  0 <= Stats.strength s <= 9995 ->
  convertible s.
Proof.
  intros Ha Hs. split.
  - pose proof (critical_damage_truncates (Stats.agility s) ltac:(lia)) as E.
    unfold critical_damage in E.
    destruct (py_float_of_int (Stats.agility s)); [discriminate | discriminate E].
  - intros roll Hr. eexists. apply critical_damage_truncates. lia.
Qed.

(** The worlds of the tests are healthy. *)
Lemma class_world_healthy :
  healthy (class_world "Guardian") /\ healthy (class_world "Mage") /\
  healthy (class_world "Shadow").
Proof.
  repeat split; vm_compute; try discriminate;
    repeat constructor; unfold item_ok; cbn; intros H; try discriminate H;
    eexists; eexists; eexists; (split; [reflexivity | discriminate]).
Qed.

(** X1.  However [start_combat] ends, it has left the name, the class, the
    attributes and the maxima of the player as they were, has added no item
    to the inventory, has changed nothing of the enemy but its health, and
    has made no object: in particular the boost of the weapon is never
    applied. *)
Theorem start_combat_frame (e : Enemy.t) (w w' : World) :
  final_world (start_combat e w) = Some w' ->
  combat_frame (with_enemy w e) w'.
Proof.
  intros E. pose proof (guards_start_combat e w) as G.
  destruct (start_combat e w) as [r v|x v|v|]; cbn in E, G; inversion E; subst v.
  - apply G.
  - apply G.
  - apply G.
Qed.

(** X2.  From a healthy world, with a healthy enemy, [start_combat] ends
    in a healthy world however it ends: health and mana of the player and
    health of the enemy stay within 0 and their maxima, and the inventory
    stays one the code can use. *)
Theorem start_combat_healthy (e : Enemy.t) (w w' : World) :
  healthy (with_enemy w e) ->
  final_world (start_combat e w) = Some w' ->
  healthy w'.
Proof.
  intros H E. pose proof (guards_start_combat e w) as G.
  destruct (start_combat e w) as [r v|x v|v|]; cbn in E, G; inversion E; subst v.
  - apply G, H.
  - apply G, H.
  - apply G, H.
Qed.

(** X3.  From a healthy world in which the agility of the player is at
    most 10000 and the strength at most 9995, the only exception that
    [start_combat] can raise, whatever is typed and drawn, is the [EOFError]
    of [input], and it is raised when no typed line is left: the attacks,
    the special move and the inventory screen raise nothing. *)
Theorem start_combat_raises_only_eof (e : Enemy.t) (w : World) :
  healthy (with_enemy w e) ->
  Stats.agility (Player.stats (player w)) <= 10000 ->
  Stats.strength (Player.stats (player w)) <= 9995 ->
  forall exc w', start_combat e w = Raise exc w' -> exc = EOFError /\ stdin w' = [].
Proof.
  intros H Ha Hs exc w' E. pose proof (guards_start_combat e w) as G.
  rewrite E in G. destruct G as [_ [G|G]]; [exact G|].
  exfalso. apply G. split; [exact H|].
  destruct H as (_ & _ & _ & H1 & H2 & _).
  cbn [player with_enemy] in H1, H2.
  cbn [player with_enemy]. apply small_stats_convertible; lia.
Qed.

Lemma start_combat_frame_witness :
  let w := with_stdin (with_draws (class_world "Mage") [10; 3; 15] [0.9%float])
                      ["special"; "item"; "discard apprentice staff"; "back"; "special"] in
  exists w',
    start_combat (enemy test_world) w = Ok "victory" w' /\
    Player.stats (player w') = Stats.mk 6 10 18 /\
    Player.max_hp (player w') = 80 /\
    List.length (Player.inventory (player w')) = 2%nat.
Proof.
  intros w.
  assert (E : exists w', start_combat (enemy test_world) w = Ok "victory" w')
    by (eexists; vm_compute; reflexivity).
  destruct E as [w' E]. exists w'. split; [exact E|].
  assert (F : final_world (start_combat (enemy test_world) w) = Some w')
    by (rewrite E; reflexivity).
  destruct (start_combat_frame _ _ _ F) as (_ & _ & Hs & Hm & _).
  rewrite Hs, Hm. split; [reflexivity|]. split; [reflexivity|].
  revert E. vm_compute. intros E. inversion E. reflexivity.
Defined.

Lemma healthy_same (w w' : World) :
  player w' = player w -> enemy w' = enemy w -> healthy w -> healthy w'.
Proof. unfold healthy. intros Hp He H. rewrite Hp, He. exact H. Qed.

Lemma start_combat_healthy_witness :
  let w := with_stdin (with_draws (class_world "Mage") [10; 3; 15] [0.9%float])
                      ["special"; "special"] in
  exists w',
    final_world (start_combat (enemy test_world) w) = Some w' /\ healthy w'.
Proof.
  intros w.
  assert (E : exists w', final_world (start_combat (enemy test_world) w) = Some w')
    by (eexists; vm_compute; reflexivity).
  destruct E as [w' E]. exists w'. split; [exact E|].
  apply (start_combat_healthy (enemy test_world) w w'); [|exact E].
  apply (healthy_same (class_world "Mage"));
    [vm_compute; reflexivity | vm_compute; reflexivity | apply class_world_healthy].
Defined.

(** The defending Mage of the tests with a single line typed: the enemy
    deals 7, and the prompt of the next turn finds no line. *)
Lemma start_combat_raises_only_eof_witness :
  let w := with_stdin (with_draws (class_world "Mage") [4] []) ["Defend"] in
  exists w',
    start_combat (enemy test_world) w = Raise EOFError w' /\
    stdin w' = [] /\ Player.hp (player w') = 73.
Proof.
  intros w.
  assert (E : exists exc w', start_combat (enemy test_world) w = Raise exc w')
    by (eexists; eexists; vm_compute; reflexivity).
  destruct E as (exc & w' & E).
  assert (H : healthy (with_enemy w (enemy test_world))).
  { apply (healthy_same (class_world "Mage"));
      [vm_compute; reflexivity | vm_compute; reflexivity | apply class_world_healthy]. }
  assert (Ha : Stats.agility (Player.stats (player w)) <= 10000)
    by (vm_compute; discriminate).
  assert (Hs : Stats.strength (Player.stats (player w)) <= 9995)
    by (vm_compute; discriminate).
  destruct (start_combat_raises_only_eof (enemy test_world) w H Ha Hs exc w' E)
    as [Hx Hin].
  subst exc. exists w'. split; [exact E|]. split; [exact Hin|].
  revert E. vm_compute. intros E. inversion E. reflexivity.
Defined.

(** ** The inventory screen *)

Lemma show_inventory_same_draws (fuel : nat) :
  keeps same_draws (Player_show_inventory fuel).
Proof.
  apply keeps_Player_show_inventory; unfold same_draws;
    first [ intros; split; reflexivity | intros a b c [H1 H2] [H3 H4]; split; congruence ].
Qed.

(** The inventory screen leaves the stance of the player as it is. *)
Lemma same_stance_refl (w : World) : same_stance w w.
Proof. reflexivity. Qed.

Lemma same_stance_trans (a b c : World) :
  same_stance a b -> same_stance b c -> same_stance a c.
Proof. unfold same_stance. congruence. Qed.

Lemma use_item_same_stance (item : Item.t) : keeps same_stance (Player_use_item item).
Proof.
  intros w. unfold Player_use_item, effect_at, int_operand, inventory_remove.
  destruct (Item.item_type item == "potion"); cbn [negb]; [|reflexivity].
  destruct (Item.effect item) as [[|v0 [|v1 t]]|]; run; cbn [nth_error];
    try reflexivity;
    (destruct (val_eq_str v0 "heal"); [|destruct (val_eq_str v0 "mana")]);
    run; try reflexivity;
    try (destruct (Player.hp (player w) =? Player.max_hp (player w)));
    try (destruct (Player.mp (player w) =? Player.max_mp (player w)));
    run; cbn [nth_error]; try reflexivity;
    destruct v1; run; try reflexivity;
    match goal with
    | |- context [remove_first ?i ?l] => destruct (remove_first i l)
    end; reflexivity.
Qed.

Lemma inventory_command_same_stance (action : string) :
  keeps same_stance (inventory_command action).
Proof.
  unfold inventory_command.
  apply (keeps_try _ same_stance_trans).
  - destruct (split_space_once action) as [|command [|item_name [|x t]]];
      try (apply keeps_raise; exact same_stance_refl).
    apply (keeps_bind _ same_stance_trans); [apply keeps_get_player, same_stance_refl|].
    intros self.
    destruct (find _ _) as [item|].
    + destruct (command == "use").
      { apply (keeps_bind _ same_stance_trans); [apply use_item_same_stance|].
        intros _. apply keeps_ret, same_stance_refl. }
      destruct (command == "view").
      { apply (keeps_bind _ same_stance_trans); [intros w; reflexivity|].
        intros _. apply keeps_ret, same_stance_refl. }
      destruct (command == "discard").
      { apply (keeps_bind _ same_stance_trans).
        - intros w. unfold inventory_remove. run.
          destruct (remove_first _ _); reflexivity.
        - intros _. apply (keeps_bind _ same_stance_trans); [intros w; reflexivity|].
          intros _. apply keeps_ret, same_stance_refl. }
      apply (keeps_bind _ same_stance_trans); [intros w; reflexivity|].
      intros _. apply keeps_ret, same_stance_refl.
    + apply (keeps_bind _ same_stance_trans); [intros w; reflexivity|].
      intros _. apply keeps_ret, same_stance_refl.
  - apply (keeps_bind _ same_stance_trans); [intros w; reflexivity|].
    intros _. apply keeps_ret, same_stance_refl.
Qed.

Lemma show_inventory_loop_same_stance (fuel : nat) :
  keeps same_stance (show_inventory_loop fuel).
Proof.
  induction fuel as [|fuel IH]; [intros w; exact I|].
  cbn [show_inventory_loop].
  apply (keeps_bind _ same_stance_trans); [intros w; reflexivity | intros _].
  apply (keeps_bind _ same_stance_trans).
  { intros w. unfold input. destruct (stdin w); reflexivity. }
  intros line. cbv zeta.
  destruct (strip (lower line) == "back"); [apply keeps_ret, same_stance_refl|].
  apply (keeps_bind _ same_stance_trans); [apply inventory_command_same_stance|].
  intros [|]; [exact IH | apply keeps_ret, same_stance_refl].
Qed.

Lemma show_inventory_same_stance (fuel : nat) :
  keeps same_stance (Player_show_inventory fuel).
Proof.
  unfold Player_show_inventory.
  apply (keeps_bind _ same_stance_trans); [intros w; reflexivity | intros _].
  apply (keeps_bind _ same_stance_trans); [apply keeps_get_player, same_stance_refl|].
  intros self. destruct (Player.inventory self).
  - apply (keeps_bind _ same_stance_trans); intros; intros w; reflexivity.
  - apply (keeps_bind _ same_stance_trans).
    { apply keeps_print_counts;
        [exact same_stance_refl | exact same_stance_trans | intros; reflexivity]. }
    intros _.
    apply (keeps_bind _ same_stance_trans); [intros w; reflexivity | intros _].
    apply show_inventory_loop_same_stance.
Qed.

(** X4.  Opened in a healthy world, the inventory screen raises no
    exception but the [EOFError] of [input] when no typed line is left,
    whatever is typed; and however it ends the world is healthy again, the
    enemy, the coming draws and the count of objects are untouched, and of
    the player nothing differs but health, mana and inventory, the inventory
    holding no item it did not hold.  With a loop bound above the number of
    typed lines the screen does end. *)
Theorem show_inventory_safe (fuel : nat) (w : World) :
  healthy w ->
  ((List.length (stdin w) < fuel)%nat -> Player_show_inventory fuel w <> OutOfFuel) /\
  (forall exc v,
      Player_show_inventory fuel w = Raise exc v -> exc = EOFError /\ stdin v = []) /\
  (forall w',
      final_world (Player_show_inventory fuel w) = Some w' ->
      healthy w' /\
      player w' =
      Player.set_inventory
        (Player.set_mp (Player.set_hp (player w) (Player.hp (player w')))
           (Player.mp (player w')))
        (Player.inventory (player w')) /\
      incl (Player.inventory (player w')) (Player.inventory (player w)) /\
      enemy w' = enemy w /\ next_id w' = next_id w /\
      rand_ints w' = rand_ints w /\ rand_floats w' = rand_floats w).
Proof.
  intros H.
  pose proof (guards_Player_show_inventory w fuel w (combat_inv_refl w)) as G.
  pose proof (show_inventory_same_enemy fuel w) as Ke.
  pose proof (show_inventory_same_draws fuel w) as Kd.
  pose proof (show_inventory_same_stance fuel w) as Ks.
  split; [|split].
  - apply Player_show_inventory_enough.
  - intros exc v E. rewrite E in G. destruct G as [_ [G|G]]; [exact G|].
    contradiction (G H).
  - intros w' E.
    assert (F : combat_inv w w' /\ same_enemy w w' /\ same_draws w w' /\ same_stance w w').
    { destruct (Player_show_inventory fuel w) as [u v|x v|v|];
        cbn in E; inversion E; subst v; cbn [guarded] in G; tauto. }
    destruct F as ((Fr & Hh) & Fe & (Fi & Ff) & Fs).
    destruct Fr as (F1 & F2 & F3 & F4 & F5 & F6 & _ & F8).
    unfold same_enemy in Fe. unfold same_stance in Fs.
    split; [exact (Hh H)|]. split.
    { destruct (player w), (player w'); cbn in *; subst; reflexivity. }
    repeat split; assumption.
Qed.

Lemma healthy_stance (w : World) (b : bool) :
  healthy w -> healthy (with_player w (Player.set_is_defending (player w) b)).
Proof. unfold healthy. cbn. tauto. Qed.

(** A defending Guardian discards the sword, looks at a potion and goes
    back. *)
Lemma show_inventory_safe_witness :
  let guardian := class_world "Guardian" in
  let defending :=
    with_player guardian (Player.set_is_defending (player guardian) true) in
  let w := with_stdin (with_draws defending [3] [0.5%float])
                      ["discard soldier's sword"; "view health potion"; "back"; "attack"] in
  exists w',
    Player_show_inventory 5 w = Ok tt w' /\
    healthy w' /\ Player.is_defending (player w') = true /\
    rand_ints w' = [3] /\ stdin w' = ["attack"].
Proof.
  intros guardian defending w.
  assert (E : exists w', Player_show_inventory 5 w = Ok tt w')
    by (eexists; vm_compute; reflexivity).
  destruct E as [w' E]. exists w'. split; [exact E|].
  assert (H : healthy w).
  { apply (healthy_same defending);
      [vm_compute; reflexivity | vm_compute; reflexivity |].
    apply healthy_stance. apply class_world_healthy. }
  destruct (show_inventory_safe 5 w H) as (_ & _ & S).
  destruct (S w') as (Hh & Hp & _ & _ & _ & Hi & _); [rewrite E; reflexivity|].
  split; [exact Hh|]. split; [rewrite Hp; vm_compute; reflexivity|].
  split; [rewrite Hi; vm_compute; reflexivity|].
  revert E. vm_compute. intros E. inversion E. reflexivity.
Defined.

Lemma find_split {A} (f : A -> bool) (l : list A) (x : A) :
  find f l = Some x ->
  exists l1 l2, l = (l1 ++ x :: l2)%list /\ f x = true /\ (forall y, In y l1 -> f y = false).
Proof.
  induction l as [|a l IH]; intros H; [discriminate|]. cbn in H.
  destruct (f a) eqn:Fa.
  - inversion H; subst a. exists [], l. repeat split; [exact Fa | intros y []].
  - destruct (IH H) as (l1 & l2 & E & Fx & Hl1).
    exists (a :: l1), l2. subst l. repeat split; [exact Fx|].
    intros y [Hy|Hy]; [subst y; exact Fa | apply Hl1, Hy].
Qed.

(** X5.  ['discard <name>'] on the inventory screen removes exactly one
    object: the first item of the inventory whose lowered name is [<name>];
    the items before it and after it stay, in their order, and nothing
    else of the world changes but the line written.  (The items of an
    inventory are distinct objects.) *)
Theorem inventory_discard_by_name (w : World) (name : string) (x : Item.t) :
  find (fun item => lower (Item.name item) == name) (Player.inventory (player w)) = Some x ->
  NoDup (map Item.id (Player.inventory (player w))) ->
  exists l1 l2,
    Player.inventory (player w) = (l1 ++ x :: l2)%list /\
    (forall y, In y l1 -> lower (Item.name y) <> name) /\
    inventory_command ("discard " ++ name) w =
    Ok Continue
       (with_stdout (with_player w (Player.set_inventory (player w) (l1 ++ l2)))
          (stdout w ++ [Line ("You discarded " ++ Item.name x ++ ".")])).
Proof.
  intros Hf Hnd.
  destruct (find_split _ _ _ Hf) as (l1 & l2 & E & Fx & Hl1).
  exists l1, l2. split; [exact E|]. split.
  - intros y Hy. apply String.eqb_neq. apply Hl1, Hy.
  - assert (Hid : forall y, In y l1 -> Item.id y <> Item.id x).
    { rewrite E in Hnd. rewrite map_app in Hnd. cbn in Hnd.
      intros y Hy Heq. apply NoDup_remove_2 in Hnd. apply Hnd.
      apply in_or_app. left. rewrite <- Heq. apply in_map, Hy. }
    unfold inventory_command, try_except_ValueError.
    cbn [split_space_once append Ascii.eqb Bool.eqb].
    run. rewrite Hf. cbn [String.eqb Ascii.eqb Bool.eqb].
    assert (R : remove_first (Item.id x) (Player.inventory (player w))
                = Some (l1 ++ l2)%list).
    { rewrite E. apply remove_first_split; [reflexivity | exact Hid]. }
    rewrite R. reflexivity.
Qed.

Lemma inventory_discard_by_name_witness :
  let w := class_world "Guardian" in
  let potion := Item.mk 1 "Health Potion" "Restores 25 HP." "potion"
                        (Some [VStr "heal"; VInt 25]) in
  exists l1 l2,
    Player.inventory (player w) = (l1 ++ potion :: l2)%list /\
    (forall y, In y l1 -> lower (Item.name y) <> "health potion") /\
    inventory_command "discard health potion" w =
    Ok Continue
       (with_stdout (with_player w (Player.set_inventory (player w) (l1 ++ l2)))
          (stdout w ++ [Line "You discarded Health Potion."])).
Proof.
  intros w potion.
  apply (inventory_discard_by_name w "health potion" potion).
  - vm_compute. reflexivity.
  - vm_compute. repeat (constructor; [cbn; intuition discriminate|]). constructor.
Defined.

Lemma split_space_once_shape (a : string) :
  split_space_once a = [a] \/
  exists c n, split_space_once a = [c; n] /\ a = c ++ " " ++ n.
Proof.
  induction a as [|ch t IH]; [left; reflexivity|]. cbn [split_space_once].
  destruct (Ascii.eqb_spec ch " ") as [E|_].
  - right. exists "", t. subst ch. split; reflexivity.
  - destruct IH as [IH|(c & n & IH & E)]; rewrite IH.
    + left. reflexivity.
    + right. exists (String ch c), n. split; [reflexivity|]. rewrite E. reflexivity.
Qed.

(** X6.  On the inventory screen only a line that starts with ['use '] or
    ['discard '] can change anything: any other line writes one line of
    text, changes nothing else, raises nothing and leaves the screen open. *)
Theorem inventory_command_harmless (action : string) (w : World) :
  (forall x, action <> "use " ++ x) ->
  (forall x, action <> "discard " ++ x) ->
  exists out,
    inventory_command action w = Ok Continue (with_stdout w (stdout w ++ [Line out])).
Proof.
  intros Huse Hdis. unfold inventory_command, try_except_ValueError.
  destruct (split_space_once_shape action) as [E|(c & n & E & Ea)]; rewrite E.
  - run. eexists. reflexivity.
  - run.
    destruct (find (fun item => lower (Item.name item) == n)
                   (Player.inventory (player w))) as [item|];
      [|eexists; reflexivity].
    destruct (String.eqb_spec c "use") as [Hc|_].
    { exfalso. apply (Huse n). rewrite Ea, Hc. reflexivity. }
    destruct (c == "view"); [eexists; reflexivity|].
    destruct (String.eqb_spec c "discard") as [Hc|_].
    { exfalso. apply (Hdis n). rewrite Ea, Hc. reflexivity. }
    eexists. reflexivity.
Qed.

Lemma inventory_command_harmless_witness :
  let w := class_world "Mage" in
  exists out,
    inventory_command "drop apprentice staff" w =
    Ok Continue (with_stdout w (stdout w ++ [Line out])).
Proof.
  intros w. apply (inventory_command_harmless "drop apprentice staff" w).
  - intros x H. cbn in H. discriminate H.
  - intros x H. cbn in H. discriminate H.
Defined.

Lemma remove_first_absent (i : nat) (l : list Item.t) :
  (forall y, In y l -> Item.id y <> i) -> remove_first i l = None.
Proof.
  induction l as [|x l IH]; intros H; [reflexivity|]. cbn.
  destruct (Nat.eqb_spec (Item.id x) i) as [E|_].
  - exfalso. apply (H x); [left; reflexivity | exact E].
  - rewrite IH; [reflexivity|]. intros y Hy. apply H. right. exact Hy.
Qed.

(** X7.  [use_item] called with a healing potion that is not an object of
    the inventory, by a player below full health, heals the player first
    and then raises the [ValueError] of [list.remove]: the health is
    raised, the exception propagates. *)
Theorem use_item_absent (item : Item.t) (w : World) (m : Z) (rest : list PyVal) :
  Item.item_type item = "potion" ->
  Item.effect item = Some (VStr "heal" :: VInt m :: rest) ->
  Player.hp (player w) <> Player.max_hp (player w) ->
  (forall y, In y (Player.inventory (player w)) -> Item.id y <> Item.id item) ->
  exists w',
    Player_use_item item w = Raise ValueError w' /\
    player w' =
    Player.set_hp (player w)
      (Z.min (Player.hp (player w) + m) (Player.max_hp (player w))) /\
    enemy w' = enemy w.
Proof.
  intros Hp He Hhp Habs. unfold Player_use_item. rewrite Hp. run.
  rewrite He. cbn.
  destruct (Z.eqb_spec (Player.hp (player w)) (Player.max_hp (player w))) as [E|_];
    [contradiction|].
  rewrite (remove_first_absent _ _ Habs), clamp_at_max.
  eexists. split; [reflexivity|]. split; reflexivity.
Qed.

Lemma use_item_absent_witness :
  let w := with_player (class_world "Guardian")
                       (Player.set_hp (player (class_world "Guardian")) 50) in
  let potion := Item.mk 7 "Health Potion" "Restores 25 HP." "potion"
                        (Some [VStr "heal"; VInt 25]) in
  exists w',
    Player_use_item potion w = Raise ValueError w' /\
    player w' = Player.set_hp (player w) (Z.min (50 + 25) 120) /\
    enemy w' = enemy w.
Proof.
  intros w potion.
  apply (use_item_absent potion w 25 []).
  - reflexivity.
  - reflexivity.
  - vm_compute. discriminate.
  - vm_compute. intros y H. repeat (destruct H as [H|H]; [subst y; discriminate|]).
    destruct H.
Defined.

(** *** The counts shown *)

Lemma counts_get_count_name (counts : list (string * Z)) (n m : string) :
  counts_get (count_name counts n) m =
  counts_get counts m + (if n == m then 1 else 0).
Proof.
  induction counts as [|[k c] rest IH]; cbn.
  - destruct (n == m); reflexivity.
  - destruct (String.eqb_spec k n) as [E|N]; cbn.
    + subst k. destruct (n == m); lia.
    + destruct (String.eqb_spec k m) as [E|_].
      * subst k. destruct (String.eqb_spec n m); [congruence | lia].
      * exact IH.
Qed.

Lemma keys_count_name (counts : list (string * Z)) (n k : string) :
  In k (map fst (count_name counts n)) <-> In k (map fst counts) \/ k = n.
Proof.
  induction counts as [|[k0 c] rest IH]; cbn.
  - intuition.
  - destruct (String.eqb_spec k0 n) as [E|N]; cbn.
    + subst k0. intuition.
    + rewrite IH. intuition.
Qed.

Lemma NoDup_count_name (counts : list (string * Z)) (n : string) :
  NoDup (map fst counts) -> NoDup (map fst (count_name counts n)).
Proof.
  induction counts as [|[k0 c] rest IH]; cbn; intros H.
  - constructor; [intros [] | constructor].
  - destruct (String.eqb_spec k0 n) as [E|N]; cbn; [exact H|].
    inversion H; subst. constructor; [|apply IH; assumption].
    rewrite keys_count_name. intros [Hk|Hk]; [contradiction | congruence].
Qed.

Lemma In_counts_get (counts : list (string * Z)) (k : string) (c : Z) :
  NoDup (map fst counts) ->
  (In (k, c) counts <-> In k (map fst counts) /\ counts_get counts k = c).
Proof.
  induction counts as [|[k0 c0] rest IH]; cbn; intros H; [tauto|].
  inversion H; subst. specialize (IH H3).
  destruct (String.eqb_spec k0 k) as [E|N].
  - subst k0. split.
    + intros [Hi|Hi]; [inversion Hi; auto|].
      exfalso. apply H2. apply (in_map fst) in Hi. exact Hi.
    + intros [_ Hc]. left. congruence.
  - split.
    + intros [Hi|Hi]; [inversion Hi; congruence|].
      apply IH in Hi. tauto.
    + intros [[Hk|Hk] Hc]; [congruence|]. right. apply IH. tauto.
Qed.

Lemma item_counts_fold (l : list Item.t) :
  forall acc,
    let counts := fold_left (fun counts item => count_name counts (Item.name item)) l acc in
    (NoDup (map fst acc) -> NoDup (map fst counts)) /\
    (forall k, In k (map fst counts) <-> In k (map fst acc) \/ In k (map Item.name l)) /\
    (forall k, counts_get counts k =
               counts_get acc k + Z.of_nat (count_occ string_dec (map Item.name l) k)).
Proof.
  induction l as [|x l IH]; intros acc; cbn.
  - split; [auto|]. split; intros k; [tauto | lia].
  - destruct (IH (count_name acc (Item.name x))) as (I1 & I3 & I4).
    split; [|split].
    + intros H. apply I1, NoDup_count_name, H.
    + intros k. rewrite I3, keys_count_name. intuition congruence.
    + intros k. rewrite I4, counts_get_count_name.
      destruct (string_dec (Item.name x) k) as [E|N].
      * subst k. rewrite String.eqb_refl. lia.
      * apply String.eqb_neq in N. rewrite N. lia.
Qed.

(** X8.  The dictionary [item_counts] the inventory screen prints has one
    entry for each name that occurs in the inventory and no other, no name
    twice, and the count of a name is the number of items of that name. *)
Theorem item_counts_grouped (l : list Item.t) :
  let names := map Item.name l in
  let counts := fold_left (fun counts item => count_name counts (Item.name item)) l [] in
  NoDup (map fst counts) /\
  (forall name c,
      In (name, c) counts <->
      In name names /\ c = Z.of_nat (count_occ string_dec names name)).
Proof.
  cbv zeta.
  destruct (item_counts_fold l []) as (I1 & I3 & I4).
  split; [apply I1; constructor|].
  intros name c. rewrite In_counts_get by (apply I1; constructor).
  rewrite I3, I4. cbn. intuition.
Qed.

(** ** Rounds of a combat *)

(** One pass through the loop of the player's turn, without its bound. *)
Lemma run_player_turn_step (w : World) (line : string) (rest : list string) :
  stdin w = line :: rest ->
  run_player_turn w =
  bind (player_action (S (List.length rest)) (strip (lower line)))
       (fun step =>
          match step with
          | Returns r => ret (Some r)
          | Done true => ret None
          | Done false => run_player_turn
          end)
       (with_stdout (with_stdin w rest) (stdout w ++ [Prompt "> "])).
Proof.
  intros E. unfold run_player_turn at 1. rewrite E. cbn [List.length].
  rewrite (player_turn_step _ w line rest E).
  unfold bind.
  pose proof (player_action_input (S (List.length rest)) (strip (lower line))
                (with_stdout (with_stdin w rest) (stdout w ++ [Prompt "> "]))) as K.
  destruct (player_action _ _ _) as [[[|]|r] w1| | |]; try reflexivity.
  apply player_turn_any_fuel. unfold input_shrinks in K. cbn in K. lia.
Qed.

(** The white space that [str.strip] removes is not only that of ASCII:
    ['FLEE'] followed by a no-break space, U+00A0, is the command
    ['flee'], and so is ['flee'] between a next line, U+0085, and a tab. *)
Lemma strip_lower_beyond_ascii :
  strip (lower ("FLEE" ++ String (ascii_of_nat 160) EmptyString)) = "flee" /\
  strip (lower (String (ascii_of_nat 133) ("flee" ++ String (ascii_of_nat 9) EmptyString)))
  = "flee" /\
  lower (String (ascii_of_nat 201) EmptyString) = String (ascii_of_nat 233) EmptyString.
Proof. vm_compute. repeat split. Qed.

(** X9.  A line that, lowered and stripped of its white space, is none of
    the five commands, and the command ['special'] typed with less than 15
    mana, do not use up the turn: one line of text is written, nothing else
    changes, no number is drawn, and the turn goes on with the next line as
    it would have without that line. *)
Theorem turn_not_consumed (w : World) (line : string) (rest : list string) :
  stdin w = line :: rest ->
  let action := strip (lower line) in
  let typed := with_stdout (with_stdin w rest) (stdout w ++ [Prompt "> "]) in
  (action <> "attack" -> action <> "special" -> action <> "defend" ->
   action <> "item" -> action <> "flee" ->
   run_player_turn w =
   run_player_turn
     (with_stdout typed
        (stdout typed
           ++ [Line "Invalid command. Choose: attack, special, defend, item, flee"]))) /\
  (action = "special" -> Player.mp (player w) < 15 ->
   run_player_turn w =
   run_player_turn
     (with_stdout typed (stdout typed ++ [Line "Not enough MP! (Costs 15)"]))).
Proof.
  intros E action typed. subst action typed. split.
  - intros H1 H2 H3 H4 H5. rewrite (run_player_turn_step w line rest E).
    apply String.eqb_neq in H1, H2, H3, H4, H5.
    unfold bind at 1. unfold player_action. rewrite H1, H2, H3, H4, H5.
    run. reflexivity.
  - intros Ha Hmp. rewrite (run_player_turn_step w line rest E), Ha.
    unfold bind at 1. unfold player_action. cbn [String.eqb Ascii.eqb Bool.eqb].
    unfold bind at 1. unfold Player_special_move. run.
    destruct (Z.ltb_spec (Player.mp (player w)) 15) as [_|G]; [|lia].
    reflexivity.
Qed.

Lemma turn_not_consumed_witness :
  let w := with_stdin (with_draws (class_world "Mage") [2] [0.9%float])
                      ["  Atack "; "attack"] in
  let typed := with_stdout (with_stdin w ["attack"]) (stdout w ++ [Prompt "> "]) in
  run_player_turn w =
  run_player_turn
    (with_stdout typed
       (stdout typed
          ++ [Line "Invalid command. Choose: attack, special, defend, item, flee"])).
Proof.
  intros w typed.
  assert (E : stdin w = ["  Atack "; "attack"]) by (vm_compute; reflexivity).
  destruct (turn_not_consumed w "  Atack " ["attack"] E) as [H _].
  apply H; vm_compute; discriminate.
Defined.

Lemma Enemy_attack_defending (w : World) (roll : Z) (ints : list Z) :
  Player.is_defending (player w) = true ->
  rand_ints w = roll :: ints ->
  1 <= roll <= 4 ->
  exists w',
    Enemy_attack w = Ok tt w' /\
    player w' = Player.set_hp (player w)
                  (Z.max 0 (Player.hp (player w) - (Enemy.strength (enemy w) + roll) / 2)) /\
    enemy w' = enemy w /\ rand_ints w' = ints /\
    rand_floats w' = rand_floats w /\ stdin w' = stdin w.
Proof.
  intros Hd Hints Hroll.
  unfold Enemy_attack. run. rewrite Hd.
  unfold randint. cbn. rewrite Hints.
  destruct (Z.leb_spec 1 roll), (Z.leb_spec roll 4); try lia. cbn.
  unfold Player_take_damage. run. rewrite clamp_at_zero.
  eexists. split; [reflexivity|]. cbn. repeat split.
Qed.

(** X10.  A round in which the player defends: the line ['defend'] typed
    while both fighters are alive makes the enemy's attack of that round
    certain to land (no float is drawn for a dodge), with a damage of half
    of strength plus the next draw of 1..4, rounded down; the enemy is
    untouched; the combat ends in defeat if that kills the player and goes
    on with the next round otherwise. *)
Theorem defend_round (w : World) (line : string) (rest : list string)
    (roll : Z) (ints : list Z) :
  stdin w = line :: rest ->
  strip (lower line) = "defend" ->
  Player_is_alive (player w) = true ->
  Enemy_is_alive (enemy w) = true ->
  rand_ints w = roll :: ints ->
  1 <= roll <= 4 ->
  exists w2,
    player w2 =
    Player.set_hp (Player.set_is_defending (player w) true)
      (Z.max 0 (Player.hp (player w) - (Enemy.strength (enemy w) + roll) / 2)) /\
    enemy w2 = enemy w /\ rand_ints w2 = ints /\
    rand_floats w2 = rand_floats w /\ stdin w2 = rest /\
    run_combat_loop w =
    if Player_is_alive (player w2) then run_combat_loop w2 else Ok "defeat" w2.
Proof.
  intros Hin Hline Hp He Hints Hroll.
  rewrite (run_combat_loop_step w Hp He).
  destruct (begin_player_turn_run w) as [w0 (Hb & B1 & B2 & B3 & B4 & B5)].
  unfold bind at 1. rewrite Hb. unfold bind at 1.
  rewrite (run_player_turn_step w0 line rest) by congruence.
  rewrite Hline. unfold bind at 1. unfold player_action.
  cbn [String.eqb Ascii.eqb Bool.eqb]. unfold modify_player. run.
  match goal with
  | |- context [after_player_turn _ ?v] =>
      destruct (after_player_turn_cases run_combat_loop v) as [_ A];
      cbv zeta in A;
      destruct (Enemy_attack_defending
                  (with_stdout v (stdout v ++ [Line (NL ++ "--- ENEMY'S TURN ---")]))
                  roll ints)
        as [w2 (Ea & P1 & P2 & P3 & P4 & P5)]
  end.
  - reflexivity.
  - cbn. congruence.
  - exact Hroll.
  - cbn in P1, P2, P3, P4, P5.
    rewrite B1 in P1. rewrite B2 in P1, P2. rewrite B4 in P4. cbn in P1.
    exists w2. split; [exact P1|]. split; [exact P2|]. split; [exact P3|].
    split; [exact P4|]. split; [exact P5|].
    destruct (A ltac:(cbn; congruence) w2 Ea) as [D C].
    destruct (Player_is_alive (player w2)) eqn:Hp2; [apply C | apply D]; reflexivity.
Qed.

Lemma defend_round_witness :
  let w := with_stdin (with_draws (class_world "Mage") [4] []) ["Defend"] in
  exists w2,
    Player.hp (player w2) = 73 /\ enemy w2 = enemy test_world /\
    run_combat_loop w = run_combat_loop w2.
Proof.
  intros w.
  assert (E1 : stdin w = ["Defend"]) by (vm_compute; reflexivity).
  assert (E2 : strip (lower "Defend") = "defend") by (vm_compute; reflexivity).
  assert (E3 : Player_is_alive (player w) = true) by (vm_compute; reflexivity).
  assert (E4 : Enemy_is_alive (enemy w) = true) by (vm_compute; reflexivity).
  assert (E5 : rand_ints w = [4]) by (vm_compute; reflexivity).
  destruct (defend_round w "Defend" [] 4 [] E1 E2 E3 E4 E5 ltac:(lia))
    as (w2 & P & Pe & _ & _ & _ & R).
  assert (A : Player_is_alive (player w2) = true)
    by (rewrite P; vm_compute; reflexivity).
  rewrite A in R.
  exists w2. split; [rewrite P; vm_compute; reflexivity|].
  split; [rewrite Pe; vm_compute; reflexivity|].
  exact R.
Defined.
